(** * Quantization-Implementations: model builder, architecture naming and
      run-mode dispatch

    Shallow embedding of [src/models/utils.py], [src/models/mobilenetv2.py]
    and the run section of [src/main.py], with the properties of the
    specification stated over it. *)

From Stdlib Require Import Reals Lra.
From Stdlib Require Import ZArith List String Ascii Bool Lia.
From Stdlib Require Import DecimalString.
From Stdlib Require Floats.SpecFloat.
From stdpp Require Import base option list strings gmap.

Import ListNotations.
Local Close Scope R_scope.
Local Open Scope string_scope.
Local Open Scope list_scope.
Local Open Scope Z_scope.

(** ** The Python runtime the sources rely on *)

Module Py.

(** Exceptions the embedded code can raise, by class. *)
Inductive exn : Type :=
| NameError (name : string)
| KeyError (key : string)
| AssertionError
| ValueError (msg : string)
| OverflowError (msg : string)
| ZeroDivisionError (msg : string)
| Exception (msg : string).

(** A computation either returns a value or raises. *)
Inductive result (A : Type) : Type :=
| Return (a : A)
| Raise (e : exn).
Arguments Return {A} a.
Arguments Raise {A} e.

Global Instance result_ret : MRet result := fun A a => Return a.
Global Instance result_bind : MBind result := fun A B k c =>
  match c with
  | Return a => k a
  | Raise e => Raise e
  end.

Fixpoint map_result {A B} (f : A -> result B) (l : list A) : result (list B) :=
  match l with
  | [] => Return []
  | a :: l' => b ← f a; bs ← map_result f l'; Return (b :: bs)
  end.

Fixpoint fold_result {A B} (f : B -> A -> result B) (l : list A) (b : B) : result B :=
  match l with
  | [] => Return b
  | a :: l' => b' ← f b a; fold_result f l' b'
  end.

Definition succeeds {A} (c : result A) : bool :=
  match c with Return _ => true | Raise _ => false end.

(** Values of configuration options that are only handed on to the
    quantized layers: an integer bit-width, a flag, or [None]. *)
Inductive value : Type :=
| VNone
| VInt (z : Z)
| VBool (b : bool).

(** *** Floats: IEEE 754 binary64 *)

Abbreviation float := SpecFloat.spec_float.
Definition prec : Z := 53.
Definition emax : Z := 1024.

(** [float(z)] for an integer [z]. *)
Definition float_of_Z (z : Z) : float :=
  SpecFloat.binary_normalize prec emax z 0 false.

Definition fmul : float -> float -> float := SpecFloat.SFmul prec emax.
Definition fdiv : float -> float -> float := SpecFloat.SFdiv prec emax.
Definition feqb : float -> float -> bool := SpecFloat.SFeqb.
Definition fltb : float -> float -> bool := SpecFloat.SFltb.

(** The literal [n/d] written in decimal (e.g. [0.5] is [decimal 5 10]):
    the double nearest to the quotient. *)
Definition decimal (n d : Z) : float := fdiv (float_of_Z n) (float_of_Z d).

Definition f1_0 : float := float_of_Z 1.
Definition f0_0 : float := float_of_Z 0.
Definition f0_5 : float := decimal 5 10.

(** [int(x)]: truncation toward zero; raises on infinities and NaN. *)
Definition int_of_float (x : float) : result Z :=
  match x with
  | SpecFloat.S754_zero _ => Return 0
  | SpecFloat.S754_infinity _ =>
      Raise (OverflowError "cannot convert float infinity to integer")
  | SpecFloat.S754_nan =>
      Raise (ValueError "cannot convert float NaN to integer")
  | SpecFloat.S754_finite s m e =>
      let a := Z.shiftl (Z.pos m) e in
      Return (if s then - a else a)
  end.

(** [int(c * w)] for an integer [c] and a float [w]. *)
Definition int_mul (c : Z) (w : float) : result Z :=
  int_of_float (fmul (float_of_Z c) w).

(** [max(a, b)]: the first argument unless the second is greater. *)
Definition fmax (a b : float) : float := if fltb a b then b else a.

(** Real-valued expressions that the code evaluates and hands to an
    external sampler; kept as written, with the real number they stand
    for given by [real_of]. *)
Inductive scalar : Type :=
| of_int (z : Z)
| lit (n d : Z)
| sdiv (a b : scalar)
| ssqrt (a : scalar).

Fixpoint real_of (s : scalar) : R :=
  match s with
  | of_int z => IZR z
  | lit n d => (IZR n / IZR d)%R
  | sdiv a b => (real_of a / real_of b)%R
  | ssqrt a => sqrt (real_of a)
  end.

(** The least magnitude of an integer that no longer fits a double: it
    rounds (to nearest, ties to even) to [2^1024], one half unit in the
    last place above the largest double [2^1024 - 2^971]. *)
Definition float_limit : Z := 2 ^ 1024 - 2 ^ 970.

(** Whether converting the integer [n] to a float raises. *)
Definition int_too_large (n : Z) : bool := float_limit <=? Z.abs n.

Arguments float_limit : simpl never.

(** [math.sqrt(2. / n)] for an integer [n]: the division first converts
    [n] to a float, which raises when [n] does not fit; it then raises on
    zero, and the square root raises on a negative argument. *)
Definition sqrt_2_over (n : Z) : result scalar :=
  if int_too_large n
  then Raise (OverflowError "int too large to convert to float")
  else if n =? 0 then Raise (ZeroDivisionError "float division by zero")
  else if n <? 0 then Raise (ValueError "math domain error")
  else Return (ssqrt (sdiv (lit 2 1) (of_int n))).

(** *** Strings *)

(** [str(z)] for an integer. *)
Definition str_of_Z (z : Z) : string := NilZero.string_of_int (Z.to_int z).

(** [s[i:]] for [0 <= i]. *)
Fixpoint drop_chars (i : nat) (s : string) : string :=
  match i, s with
  | O, _ => s
  | S i', String _ s' => drop_chars i' s'
  | S _, EmptyString => EmptyString
  end.

Definition digit_of (c : ascii) : option Z :=
  let n := Z.of_nat (nat_of_ascii c) in
  if (48 <=? n) && (n <=? 57) then Some (n - 48) else None.

Fixpoint parse_digits (acc : Z) (s : string) : option Z :=
  match s with
  | EmptyString => Some acc
  | String c s' =>
      match digit_of c with
      | Some d => parse_digits (10 * acc + d) s'
      | None => None
      end
  end.

(** [int(s)] on a string of decimal digits; anything else raises
    [ValueError] here (the sources only apply it to such strings). *)
Definition int_of_str (s : string) : result Z :=
  match s with
  | EmptyString => Raise (ValueError "invalid literal for int()")
  | _ => match parse_digits 0 s with
         | Some z => Return z
         | None => Raise (ValueError "invalid literal for int()")
         end
  end.

(** [x in l] for a list of strings. *)
Definition str_in (x : string) (l : list string) : bool :=
  existsb (String.eqb x) l.

End Py.

Import Py.

(** ** Configuration *)

(** The options of the parsed command line that the embedded code reads. *)
Record config : Type := Config {
  arch : string;
  layers : Z;
  width_mult : float;
  dataset : string;
  bitw : value;
  bita : value;
  first_conv_bitw : value;
  last_fc_bitw : value;
  symmetric : value;
  quantization : string;
  run_type : string;
  load : option string;
  resume : bool;
  step_location : string
}.

(** ** [models/utils.py] *)

Section ArchName.

(** Python's formatting of a float inside an f-string ([format(x, "")],
    the shortest decimal that reads back as [x]); it belongs to the
    interpreter, not to the repository. *)
Variable format_float : float -> string.

Definition set_arch_name (cfg : config) : string :=
  let arch_name := arch cfg in
  if str_in (arch cfg) ["resnet"; "preactresnet"] then
    arch_name +:+ "-" +:+ str_of_Z (layers cfg)
  else if str_in (arch cfg) ["mobilenetv2"] then
    if negb (feqb (width_mult cfg) f1_0) then
      arch_name +:+ "x" +:+ format_float (width_mult cfg)
    else arch_name
  else arch_name.

End ArchName.

(** ** [models/mobilenetv2.py] *)

(** *** Layers provided by the quantizer and by the tensor library

    [qnn.QuantConv2d], [qnn.QuantReLU6], [qnn.QuantIdentity],
    [qnn.QuantLinear] and [nn.BatchNorm2d] are external classes.  A layer
    is represented by the arguments it was constructed with and, for each
    of its parameters, the initialiser last applied to it. *)

(** The [qnn] namespace of a quantizer, by name. *)
Definition module_ref : Type := string.

Inductive initialiser : Type :=
| by_constructor
| normal_ (mean : scalar) (std : scalar)
| ones_
| zeros_.

Module QuantConv2d.
Record t : Type := mk {
  qnn : module_ref;
  in_channels : Z;
  out_channels : Z;
  kernel_size : Z * Z;
  stride : Z;
  padding : Z;
  groups : Z;
  nbits : value;
  symmetric : value;
  weight : initialiser;
  bias : option initialiser
}.
End QuantConv2d.

Module QuantReLU6.
Record t : Type := mk { qnn : module_ref; inplace : bool; nbits : value }.
End QuantReLU6.

Module QuantIdentity.
Record t : Type := mk { qnn : module_ref; nbits : value; symmetric : value }.
End QuantIdentity.

Module QuantLinear.
Record t : Type := mk {
  qnn : module_ref;
  in_features : Z;
  out_features : Z;
  nbits : value;
  symmetric : value;
  weight : initialiser;
  bias : initialiser
}.
End QuantLinear.

Module BatchNorm2d.
Record t : Type := mk {
  num_features : Z;
  weight : initialiser;
  bias : initialiser
}.
Definition new (num_features : Z) : t := mk num_features by_constructor by_constructor.
End BatchNorm2d.

Inductive layer : Type :=
| Conv (m : QuantConv2d.t)
| ReLU6 (m : QuantReLU6.t)
| Identity (m : QuantIdentity.t)
| Linear (m : QuantLinear.t)
| BatchNorm (m : BatchNorm2d.t).

(** Tensors, as the computation that produces them from the input of the
    forward pass. *)
Inductive tensor : Type :=
| input
| call (m : layer) (x : tensor)
| add (x y : tensor)
| mean (dims : list Z) (x : tensor).

(** *** Module-level state: [qnn] and [qcfg] *)

Record globals : Type := Globals {
  g_qnn : option module_ref;
  g_qcfg : option (gmap string value)
}.

Definition global_qnn (g : globals) : result module_ref :=
  match g_qnn g with
  | Some q => Return q
  | None => Raise (NameError "qnn")
  end.

(** [qcfg[key]] *)
Definition qcfg_get (g : globals) (key : string) : result value :=
  match g_qcfg g with
  | None => Raise (NameError "qcfg")
  | Some d => match d !! key with
              | Some v => Return v
              | None => Raise (KeyError key)
              end
  end.

Definition is_None (v : value) : bool :=
  match v with VNone => true | _ => false end.

(** *** Layer factories.  Python's default arguments are written out at
    each call: [kernel_size=3, stride=1, padding=0, groups=1, bias=False,
    bitw=None]. *)

Definition conv2d (g : globals) (inplanes out_planes kernel_size stride
    padding groups : Z) (bias : bool) (bitw : value) : result QuantConv2d.t :=
  q ← global_qnn g;
  nbits ← (if is_None bitw then qcfg_get g "bitw" else Return bitw);
  sym ← qcfg_get g "symmetric";
  Return (QuantConv2d.mk q inplanes out_planes (kernel_size, kernel_size)
            stride padding groups nbits sym
            by_constructor (if bias then Some by_constructor else None)).

Definition relu6 (g : globals) (inplace : bool) : result QuantReLU6.t :=
  q ← global_qnn g;
  nbits ← qcfg_get g "bita";
  Return (QuantReLU6.mk q inplace nbits).

Definition identity (g : globals) (bitw : value) : result QuantIdentity.t :=
  q ← global_qnn g;
  nbits ← (if is_None bitw then qcfg_get g "bitw" else Return bitw);
  sym ← qcfg_get g "symmetric";
  Return (QuantIdentity.mk q nbits sym).

(** *** [class ConvBNReLU] *)

Module ConvBNReLU.

(** [quant_act] is [None] when the attribute was never set. *)
Record t : Type := mk {
  quant_act : option QuantIdentity.t;
  conv : QuantConv2d.t;
  bn : BatchNorm2d.t;
  act : QuantReLU6.t
}.

(** [__init__(in_planes, out_planes, kernel_size=3, stride=1, groups=1,
    bitw=None, quant_input=True)] *)
Definition init (g : globals) (in_planes out_planes kernel_size stride
    groups : Z) (bitw : value) (quant_input : bool) : result t :=
  let padding := if kernel_size >? 1 then (kernel_size - 1) / 2 else 0 in
  quant_act ← (if negb quant_input
               then q ← identity g bitw; Return (Some q)
               else Return None);
  conv ← conv2d g in_planes out_planes kernel_size stride padding groups false bitw;
  let bn := BatchNorm2d.new out_planes in
  act ← relu6 g false;
  Return (mk quant_act conv bn act).

Definition forward (self : t) (x : tensor) : tensor :=
  let x := match quant_act self with
           | Some q => call (Identity q) x
           | None => x
           end in
  call (ReLU6 (act self)) (call (BatchNorm (bn self)) (call (Conv (conv self)) x)).

End ConvBNReLU.

(** *** [nn.Sequential] over the submodules met in this file *)

Inductive submodule : Type :=
| Block (m : ConvBNReLU.t)
| Layer (m : layer).

Module Sequential.

Definition forward1 (m : submodule) (x : tensor) : tensor :=
  match m with
  | Block b => ConvBNReLU.forward b x
  | Layer l => call l x
  end.

Definition forward (ms : list submodule) (x : tensor) : tensor :=
  fold_left (fun x m => forward1 m x) ms x.

End Sequential.

(** *** [class InvertedResidual] *)

Module InvertedResidual.

Record t : Type := mk {
  stride : Z;
  use_res_connect : bool;
  conv : list submodule
}.

(** [__init__(inp, oup, stride, expand_ratio, quant_input=True)].  Every
    caller passes an integer [expand_ratio], for which
    [int(round(inp * expand_ratio))] is the integer product. *)
Definition init (g : globals) (inp oup stride expand_ratio : Z)
    (quant_input : bool) : result t :=
  if negb ((stride =? 1) || (stride =? 2)) then Raise AssertionError else
  let hidden_dim := inp * expand_ratio in
  let use_res_connect := (stride =? 1) && (inp =? oup) in
  pw ← (if negb (expand_ratio =? 1)
        then b ← ConvBNReLU.init g inp hidden_dim 1 1 1 VNone quant_input;
             Return [Block b]
        else Return []);
  dw ← ConvBNReLU.init g hidden_dim hidden_dim 3 stride hidden_dim VNone true;
  pwl ← conv2d g hidden_dim oup 1 1 0 1 false VNone;
  let layers := pw ++ [Block dw; Layer (Conv pwl); Layer (BatchNorm (BatchNorm2d.new oup))] in
  Return (mk stride use_res_connect layers).

Definition forward (self : t) (x : tensor) : tensor :=
  if use_res_connect self
  then add x (Sequential.forward (conv self) x)
  else Sequential.forward (conv self) x.

End InvertedResidual.

(** *** Weight initialisation: the loop [for m in self.modules()], which
    both network classes end their constructor with.  It visits the
    submodules in registration order and rewrites their parameters. *)

Definition init_conv (m : QuantConv2d.t) : result QuantConv2d.t :=
  let n := fst (QuantConv2d.kernel_size m) * snd (QuantConv2d.kernel_size m)
           * QuantConv2d.out_channels m in
  std ← sqrt_2_over n;
  Return (QuantConv2d.mk (QuantConv2d.qnn m)
            (QuantConv2d.in_channels m) (QuantConv2d.out_channels m)
            (QuantConv2d.kernel_size m) (QuantConv2d.stride m)
            (QuantConv2d.padding m) (QuantConv2d.groups m)
            (QuantConv2d.nbits m) (QuantConv2d.symmetric m)
            (normal_ (of_int 0) std)
            (match QuantConv2d.bias m with
             | Some _ => Some zeros_
             | None => None
             end)).

Definition init_bn (m : BatchNorm2d.t) : BatchNorm2d.t :=
  BatchNorm2d.mk (BatchNorm2d.num_features m) ones_ zeros_.

Definition init_linear (m : QuantLinear.t) : QuantLinear.t :=
  QuantLinear.mk (QuantLinear.qnn m)
    (QuantLinear.in_features m) (QuantLinear.out_features m)
    (QuantLinear.nbits m) (QuantLinear.symmetric m)
    (normal_ (of_int 0) (lit 1 100)) zeros_.

Definition init_layer (m : layer) : result layer :=
  match m with
  | Conv c => c' ← init_conv c; Return (Conv c')
  | BatchNorm b => Return (BatchNorm (init_bn b))
  | Linear l => Return (Linear (init_linear l))
  | ReLU6 _ | Identity _ => Return m
  end.

Definition init_block (m : ConvBNReLU.t) : result ConvBNReLU.t :=
  conv ← init_conv (ConvBNReLU.conv m);
  Return (ConvBNReLU.mk (ConvBNReLU.quant_act m) conv
            (init_bn (ConvBNReLU.bn m)) (ConvBNReLU.act m)).

Definition init_submodule (m : submodule) : result submodule :=
  match m with
  | Block b => b' ← init_block b; Return (Block b')
  | Layer l => l' ← init_layer l; Return (Layer l')
  end.

Definition init_residual (m : InvertedResidual.t) : result InvertedResidual.t :=
  conv ← map_result init_submodule (InvertedResidual.conv m);
  Return (InvertedResidual.mk (InvertedResidual.stride m)
            (InvertedResidual.use_res_connect m) conv).

(** The members of [self.features]. *)
Inductive feature : Type :=
| Plain (m : ConvBNReLU.t)
| Residual (m : InvertedResidual.t).

Definition init_feature (m : feature) : result feature :=
  match m with
  | Plain b => b' ← init_block b; Return (Plain b')
  | Residual r => r' ← init_residual r; Return (Residual r')
  end.

Definition forward_feature (m : feature) (x : tensor) : tensor :=
  match m with
  | Plain b => ConvBNReLU.forward b x
  | Residual r => InvertedResidual.forward r x
  end.

(** The loop [for i in range(n)] of both network classes: [n] blocks, the
    first with stride [s], all with [output_channel] outputs. *)
Definition repeat_block (g : globals) (output_channel s t : Z) (q : bool)
    (n : nat) (st : Z * list feature) : result (Z * list feature) :=
  fold_result
    (fun '(input_channel, features) i =>
       let stride := if (i =? 0)%nat then s else 1 in
       b ← InvertedResidual.init g input_channel output_channel stride t q;
       Return (output_channel, features ++ [Residual b]))
    (seq 0 n) st.

(** [qnn.QuantLinear(in_features, out_features, nbits=qcfg['last_fc_bitw'],
    symmetric=qcfg['symmetric'])] *)
Definition last_fc (g : globals) (in_features out_features : Z)
    : result QuantLinear.t :=
  q ← global_qnn g;
  nbits ← qcfg_get g "last_fc_bitw";
  sym ← qcfg_get g "symmetric";
  Return (QuantLinear.mk q in_features out_features nbits sym
            by_constructor by_constructor).

(** *** [class MobileNetV2] *)

Module MobileNetV2.

Record t : Type := mk {
  last_channel : Z;
  features : list feature;
  classifier : list layer
}.

(** Rows [t, c, n, s, q]. *)
Definition inverted_residual_setting : list (Z * Z * nat * Z * bool) :=
  [ (1, 16, 1%nat, 1, true);
    (6, 24, 2%nat, 2, false);
    (6, 32, 3%nat, 2, false);
    (6, 64, 4%nat, 2, false);
    (6, 96, 3%nat, 1, false);
    (6, 160, 3%nat, 2, false);
    (6, 320, 1%nat, 1, false) ].

(** [__init__(num_classes=1000, width_mult=1.0)] *)
Definition init (g : globals) (num_classes : Z) (width_mult : float) : result t :=
  let input_channel := 32 in
  let last_channel := 1280 in
  input_channel ← int_mul input_channel width_mult;
  last_channel ← int_mul last_channel (fmax f1_0 width_mult);
  bitw ← qcfg_get g "first_conv_bitw";
  first ← ConvBNReLU.init g 3 input_channel 3 2 1 bitw true;
  '(input_channel, features) ←
    fold_result
      (fun st '(t, c, n, s, q) =>
         output_channel ← int_mul c width_mult;
         repeat_block g output_channel s t q n st)
      inverted_residual_setting (input_channel, [Plain first]);
  last ← ConvBNReLU.init g input_channel last_channel 1 1 1 VNone false;
  let features := features ++ [Plain last] in
  fc ← last_fc g last_channel num_classes;
  let classifier := [Linear fc] in
  features ← map_result init_feature features;
  classifier ← map_result init_layer classifier;
  Return (mk last_channel features classifier).

Definition forward (self : t) (x : tensor) : tensor :=
  let x := fold_left (fun x m => forward_feature m x) (features self) x in
  let x := mean [2; 3] x in
  fold_left (fun x m => call m x) (classifier self) x.

End MobileNetV2.

(** *** [class MobileNetV2_CIFAR] *)

Module MobileNetV2_CIFAR.

Record t : Type := mk {
  last_channel : Z;
  features : list feature;
  classifier : list layer
}.

(** Rows [t, c, n, s]. *)
Definition inverted_residual_setting : list (Z * Z * nat * Z) :=
  [ (1, 16, 1%nat, 1);
    (6, 24, 2%nat, 1);
    (6, 32, 3%nat, 1);
    (6, 64, 4%nat, 2);
    (6, 96, 3%nat, 1);
    (6, 160, 3%nat, 2);
    (6, 320, 1%nat, 1) ].

(** [__init__(num_classes=10, width_mult=1.0)] *)
Definition init (g : globals) (num_classes : Z) (width_mult : float) : result t :=
  let input_channel := 32 in
  let last_channel := 1280 in
  input_channel ← int_mul input_channel width_mult;
  last_channel ← int_mul last_channel (fmax f1_0 width_mult);
  bitw ← qcfg_get g "first_conv_bitw";
  first ← ConvBNReLU.init g 3 input_channel 3 1 1 bitw true;
  '(input_channel, features) ←
    fold_result
      (fun st '(t, c, n, s) =>
         output_channel ← int_mul c width_mult;
         repeat_block g output_channel s t true n st)
      inverted_residual_setting (input_channel, [Plain first]);
  last ← ConvBNReLU.init g input_channel last_channel 1 1 1 VNone true;
  let features := features ++ [Plain last] in
  fc ← last_fc g last_channel num_classes;
  let classifier := [Linear fc] in
  features ← map_result init_feature features;
  classifier ← map_result init_layer classifier;
  Return (mk last_channel features classifier).

Definition forward (self : t) (x : tensor) : tensor :=
  let x := fold_left (fun x m => forward_feature m x) (features self) x in
  let x := mean [2; 3] x in
  fold_left (fun x m => call m x) (classifier self) x.

End MobileNetV2_CIFAR.

(** *** [set_model] *)

Inductive model : Type :=
| ImageNetModel (m : MobileNetV2.t)
| CifarModel (m : MobileNetV2_CIFAR.t).

Definition qcfg_of (cfg : config) : gmap string value :=
  <["symmetric" := symmetric cfg]>
  (<["last_fc_bitw" := last_fc_bitw cfg]>
  (<["first_conv_bitw" := first_conv_bitw cfg]>
  (<["bita" := bita cfg]>
  (<["bitw" := bitw cfg]> ∅)))).

(** [set_model(cfg, qnn)] run from the module state [g]: the module state
    it leaves, and what it returns or raises. *)
Definition set_model (cfg : config) (qnn : module_ref) (g : globals)
    : globals * result (model * Z) :=
  let g := Globals (Some qnn) (g_qcfg g) in
  let g := Globals (g_qnn g) (Some (qcfg_of cfg)) in
  (g,
   if str_in (dataset cfg) ["cifar10"; "cifar100"] then
     let image_size := 32 in
     num_classes ← int_of_str (drop_chars 5 (dataset cfg));
     model ← MobileNetV2_CIFAR.init g num_classes (width_mult cfg);
     Return (CifarModel model, image_size)
   else if str_in (dataset cfg) ["imagenet"] then
     let image_size := 224 in
     let num_classes := 1000 in
     model ← MobileNetV2.init g num_classes (width_mult cfg);
     Return (ImageNetModel model, image_size)
   else Raise (Exception "Undefined dataset for MobileNetV2 architecture.")).

(** ** [main.py] *)

(** The functions [main] registers as hooks.  The three [extractor_*]
    are the bound methods [initialize], [check_feature] and [save_feature]
    of the [FeatureExtractor] that [main] creates; [quantizer_hook] stands
    for a function that a quantizer module registers for itself. *)
Inductive hook : Type :=
| load_init
| load_resume
| load_valid
| save_train
| save_pred
| summarize_reports
| step_lr_epoch
| step_lr_batch
| extractor_initialize
| extractor_check_feature
| extractor_save_feature
| quantizer_hook (name : string).

Global Instance hook_eq_dec : EqDecision hook.
Proof. solve_decision. Defined.

(** Modelled from the spec: the quantizer modules (package
    [quantization]) are not among the sources.  Per section 6 a quantizer
    module exposes a factory for quantized layers, here its namespace
    [qnn], and optionally an extension point [add_hooks(trainer)]; the
    latter is given by what it registers: locations with functions of the
    quantizer's own.  [None] is a module without the attribute. *)
Record quantizer : Type := Quantizer {
  qnn : module_ref;
  add_hooks : option (list (string * list string))
}.

Module Trainer.

(** Modelled from the spec: the class [Trainer] of [classifier.train] is
    not among the sources.  Per sections 3, 4.1 and 4.2, the hook registry
    maps a lifecycle location to an ordered sequence of callables, and
    registering appends; [before_train] hooks run once before any epoch
    (train mode only); each epoch runs the [before_epoch] hooks, then the
    batch loop with the [after_batch] hooks after each batch, then the
    [after_epoch] hooks; hooks run in registration order. *)
Record t : Type := mk {
  hooks : gmap string (list hook);
  epochs : nat;
  train_loader : nat;
  val_loader : nat;
  test_loader : nat
}.

(** A trainer as assembled by [main]: nothing registered yet; the
    loaders are given by their number of batches. *)
Definition new (epochs train_loader val_loader test_loader : nat) : t :=
  mk ∅ epochs train_loader val_loader test_loader.

Definition hooks_at (self : t) (loc : string) : list hook :=
  default [] (hooks self !! loc).

Definition register_hooks (loc : string) (func : list hook) (self : t) : t :=
  mk (<[loc := hooks_at self loc ++ func]> (hooks self))
     (epochs self) (train_loader self) (val_loader self) (test_loader self).

(** What a run does, in order: hook invocations and batch steps. *)
Inductive event : Type :=
| hook_call (loc : string) (h : hook)
| batch_step (epoch batch : nat).

Definition run_hooks (self : t) (loc : string) : list event :=
  map (hook_call loc) (hooks_at self loc).

Definition run_epoch (self : t) (batches : nat) (epoch : nat) : list event :=
  run_hooks self "before_epoch"
  ++ flat_map (fun b => batch_step epoch b :: run_hooks self "after_batch")
       (seq 0 batches)
  ++ run_hooks self "after_epoch".

Definition train (self : t) : list event :=
  run_hooks self "before_train"
  ++ flat_map (run_epoch self (train_loader self)) (seq 0 (epochs self)).

(** Validate, test and analyze make a single pass; analyze is the same
    loop as validate (section 4.2). *)
Definition validate (self : t) : list event := run_epoch self (val_loader self) 0.
Definition test (self : t) : list event := run_epoch self (test_loader self) 0.
Definition analyze (self : t) : list event := run_epoch self (val_loader self) 0.

End Trainer.

(** What the run section of [main] does with the trainer, in order. *)
Inductive step : Type :=
| RegisterHooks (loc : string) (func : list hook)
| AddHooks
| Train
| Validate
| Test
| Analyze.

Global Instance step_eq_dec : EqDecision step.
Proof. solve_decision. Defined.

(** [main], from [# run] on (lines 59-101): the prelude above it builds
    [cfg], the [quantizer] and the trainer out of external collaborators.
    The steps are the calls made on the trainer; the import and the
    construction of the feature extractor in analyze mode (lines 95-96)
    do not touch the trainer and are no step.
    [hasattr(quantizer, 'add_hooks')] is [add_hooks quantizer] being
    [Some]. *)
Definition main (cfg : config) (quantizer : quantizer) : list step :=
  if String.eqb (run_type cfg) "train" then
    (match load cfg with
     | Some _ =>
         if negb (resume cfg)
         then [RegisterHooks "before_train" [load_init]]
         else [RegisterHooks "before_train" [load_resume]]
     | None => []
     end)
    ++ (if String.eqb (step_location cfg) "epoch"
        then [RegisterHooks "after_epoch" [step_lr_epoch]]
        else [RegisterHooks "after_batch" [step_lr_batch]])
    ++ [RegisterHooks "after_epoch" [save_train; summarize_reports]]
    ++ (match add_hooks quantizer with
        | Some _ => [AddHooks]
        | None => []
        end)
    ++ [Train]
  else if String.eqb (run_type cfg) "validate" then
    [ RegisterHooks "before_epoch" [load_valid];
      RegisterHooks "after_epoch" [summarize_reports];
      Validate ]
  else if String.eqb (run_type cfg) "test" then
    [ RegisterHooks "before_epoch" [load_valid];
      RegisterHooks "after_epoch" [save_pred];
      Test ]
  else if String.eqb (run_type cfg) "analyze" then
    [ RegisterHooks "before_epoch" [load_valid];
      RegisterHooks "before_epoch" [extractor_initialize];
      RegisterHooks "after_batch" [extractor_check_feature];
      RegisterHooks "after_epoch" [extractor_save_feature];
      Analyze ]
  else [].

(** What [add_hooks] of a quantizer does to the trainer. *)
Definition quantizer_registrations (regs : list (string * list string))
    (tr : Trainer.t) : Trainer.t :=
  fold_left
    (fun tr '(loc, names) =>
       Trainer.register_hooks loc (map quantizer_hook names) tr)
    regs tr.

(** The effect of one step on the trainer and the events it causes. *)
Definition perform (quantizer : quantizer) (c : step) (tr : Trainer.t)
    : Trainer.t * list Trainer.event :=
  match c with
  | RegisterHooks loc func => (Trainer.register_hooks loc func tr, [])
  | AddHooks =>
      (quantizer_registrations (default [] (add_hooks quantizer)) tr, [])
  | Train => (tr, Trainer.train tr)
  | Validate => (tr, Trainer.validate tr)
  | Test => (tr, Trainer.test tr)
  | Analyze => (tr, Trainer.analyze tr)
  end.

Fixpoint perform_all (quantizer : quantizer) (cs : list step) (tr : Trainer.t)
    : Trainer.t * list Trainer.event :=
  match cs with
  | [] => (tr, [])
  | c :: cs' =>
      let '(tr1, ev1) := perform quantizer c tr in
      let '(tr2, ev2) := perform_all quantizer cs' tr1 in
      (tr2, ev1 ++ ev2)
  end.

(** [main] run on a freshly assembled trainer. *)
Definition run_main (cfg : config) (quantizer : quantizer) (tr : Trainer.t)
    : Trainer.t * list Trainer.event :=
  perform_all quantizer (main cfg quantizer) tr.

(** ** Sample inputs *)

Definition sample_cfg (ds : string) (w : float) (rt loc : string) : config :=
  Config "mobilenetv2" 0 w ds (VInt 4) (VInt 4) (VInt 8) (VInt 8) (VBool false)
         "lsq" rt None false loc.

Definition fresh_globals : globals := Globals None None.
Definition ready_globals : globals :=
  fst (set_model (sample_cfg "imagenet" f1_0 "train" "epoch") "lsq.qnn" fresh_globals).

(** A formatter for the examples: the exact decimal expansion of a
    finite float, which is how Python prints [0.5], [0.25] or [1.5]. *)
Fixpoint strip_zeros (fuel : nat) (frac : Z) (digits : nat) : Z * nat :=
  match fuel, digits with
  | S fuel', S d' =>
      if frac mod 10 =? 0 then strip_zeros fuel' (frac / 10) d' else (frac, digits)
  | _, _ => (frac, digits)
  end.

Fixpoint pad_left (width : nat) (s : string) : string :=
  if (String.length s <? width)%nat
  then match width with
       | S w' => String "0" (pad_left w' s)
       | O => s
       end
  else s.

Definition format_exact (x : float) : string :=
  match x with
  | SpecFloat.S754_zero s => if s then "-0.0" else "0.0"
  | SpecFloat.S754_infinity s => if s then "-inf" else "inf"
  | SpecFloat.S754_nan => "nan"
  | SpecFloat.S754_finite s m e =>
      let sign := if s then "-" else "" in
      if 0 <=? e then sign +:+ str_of_Z (Z.shiftl (Z.pos m) e) +:+ ".0"
      else
        let k := Z.to_nat (- e) in
        let scaled := Z.pos m * 5 ^ (- e) in
        let whole := scaled / 10 ^ (- e) in
        let '(frac, digits) := strip_zeros k (scaled mod 10 ^ (- e)) k in
        sign +:+ str_of_Z whole +:+ "." +:+
        (if (digits =? 0)%nat then "0" else pad_left digits (str_of_Z frac))
  end.


(** Size of the computation behind a tensor. *)
Fixpoint tensor_size (x : tensor) : nat :=
  match x with
  | input => 1
  | call _ x' => S (tensor_size x')
  | add x' y' => S (tensor_size x' + tensor_size y')
  | mean _ x' => S (tensor_size x')
  end.

(** The hooks that step the learning-rate scheduler. *)
Definition is_lr_step (h : hook) : bool :=
  match h with
  | step_lr_epoch | step_lr_batch => true
  | _ => false
  end.

Definition is_lr_event (e : Trainer.event) : bool :=
  match e with
  | Trainer.hook_call _ h => is_lr_step h
  | Trainer.batch_step _ _ => false
  end.

Definition is_register (c : step) : bool :=
  match c with RegisterHooks _ _ => true | _ => false end.

(** The dataset names [set_model] knows. *)
Definition recognized : list string := ["cifar10"; "cifar100"; "imagenet"].

Definition run_modes : list string := ["train"; "validate"; "test"; "analyze"].

Definition sample_quantizer : quantizer :=
  Quantizer "lsq.qnn" (Some [("after_batch", ["update_step_size"])]).

Global Instance event_eq_dec : EqDecision Trainer.event.
Proof. solve_decision. Defined.

(** The scheduler-step hooks registered at a location. *)
Definition lr_hooks (tr : Trainer.t) (loc : string) : list hook :=
  List.filter is_lr_step (Trainer.hooks_at tr loc).

(** ** What the properties of the model builder are stated with *)

(** The layers of a model, in the order [self.modules()] meets them. *)
Definition block_layers (m : ConvBNReLU.t) : list layer :=
  match ConvBNReLU.quant_act m with
  | Some q => [Identity q]
  | None => []
  end
  ++ [Conv (ConvBNReLU.conv m); BatchNorm (ConvBNReLU.bn m); ReLU6 (ConvBNReLU.act m)].

Definition submodule_layers (m : submodule) : list layer :=
  match m with
  | Block b => block_layers b
  | Layer l => [l]
  end.

Definition residual_layers (m : InvertedResidual.t) : list layer :=
  flat_map submodule_layers (InvertedResidual.conv m).

Definition feature_layers (m : feature) : list layer :=
  match m with
  | Plain b => block_layers b
  | Residual r => residual_layers r
  end.

Definition model_features (m : model) : list feature :=
  match m with
  | ImageNetModel n => MobileNetV2.features n
  | CifarModel n => MobileNetV2_CIFAR.features n
  end.

Definition model_classifier (m : model) : list layer :=
  match m with
  | ImageNetModel n => MobileNetV2.classifier n
  | CifarModel n => MobileNetV2_CIFAR.classifier n
  end.

Definition model_layers (m : model) : list layer :=
  flat_map feature_layers (model_features m) ++ model_classifier m.

(** Output dimensionality of the final classifier layer. *)
Definition output_dim (m : model) : option Z :=
  match List.last (map Some (model_classifier m)) None with
  | Some (Linear l) => Some (QuantLinear.out_features l)
  | _ => None
  end.

(** [kernel_size[0] * kernel_size[1] * out_channels] *)
Definition fan (m : QuantConv2d.t) : Z :=
  fst (QuantConv2d.kernel_size m) * snd (QuantConv2d.kernel_size m)
  * QuantConv2d.out_channels m.

(** Submodules whose convolutions all have a positive [fan] that fits a
    float. *)
Definition conv_ready (m : QuantConv2d.t) : bool :=
  (0 <? fan m) && (fan m <? float_limit).

Definition layer_ready (m : layer) : bool :=
  match m with
  | Conv c => conv_ready c
  | _ => true
  end.

Definition block_ready (m : ConvBNReLU.t) : bool := conv_ready (ConvBNReLU.conv m).

Definition submodule_ready (m : submodule) : bool :=
  match m with
  | Block b => block_ready b
  | Layer l => layer_ready l
  end.

Definition feature_ready (m : feature) : bool :=
  match m with
  | Plain b => block_ready b
  | Residual r => forallb submodule_ready (InvertedResidual.conv r)
  end.

(** The channel counts that both networks scale by the width multiplier:
    the stem's 32 and column [c] of the block tables. *)
Definition channel_counts : list Z := [32; 16; 24; 32; 64; 96; 160; 320].

Definition scaled_ok (w : float) (c : Z) : bool :=
  match int_mul c w with
  | Return k => 0 <? k
  | Raise _ => false
  end.

(** A width multiplier for which every scaled channel count, and the
    last channel count [int(1280 * max(1.0, w))], is a positive integer. *)
Definition width_ok (w : float) : bool :=
  forallb (scaled_ok w) channel_counts && scaled_ok (fmax f1_0 w) 1280.

(** The largest [fan] of a network is that of a depthwise convolution,
    [3 * 3 * (6 * k)] for a scaled channel count [k]: [scaled_fits] asks
    that it fits a float. *)
Definition scaled_fits (w : float) (c : Z) : bool :=
  match int_mul c w with
  | Return k => 54 * k <? float_limit
  | Raise _ => false
  end.

(** A width multiplier for which no scaled channel count is so large that
    [2. / n] overflows in the initialisation loop. *)
Definition width_fits (w : float) : bool :=
  forallb (scaled_fits w) channel_counts && scaled_fits (fmax f1_0 w) 1280.

Definition row_ok (w : float) (row : Z * Z * nat * Z * bool) : bool :=
  let '(t, c, n, s, q) := row in
  scaled_ok w c && scaled_fits w c && (0 <? t) && (t <=? 6)
  && ((s =? 1) || (s =? 2)).

(** A parameter initialised from the normal distribution with the given
    mean and standard deviation. *)
Definition is_normal (i : initialiser) (mu sigma : R) : Prop :=
  exists m s, i = normal_ m s /\ real_of m = mu /\ real_of s = sigma.

(** What the initialisation loop leaves in a layer. *)
Definition initialised (m : layer) : Prop :=
  match m with
  | Conv c =>
      0 < fan c /\
      is_normal (QuantConv2d.weight c) 0 (sqrt (2 / IZR (fan c))) /\
      (QuantConv2d.bias c = None \/ QuantConv2d.bias c = Some zeros_)
  | BatchNorm b =>
      BatchNorm2d.weight b = ones_ /\ BatchNorm2d.bias b = zeros_
  | Linear l =>
      is_normal (QuantLinear.weight l) 0 (1 / 100) /\
      QuantLinear.bias l = zeros_
  | ReLU6 _ | Identity _ => True
  end.

(** Dataset name, class count and image size, for the recognized names. *)
Definition dataset_table : list (string * Z * Z) :=
  [("cifar10", 10, 32); ("cifar100", 100, 32); ("imagenet", 1000, 224)].

(** Two layers of the CIFAR-10 network at width multiplier 1.0. *)
Definition sample_stem_conv : QuantConv2d.t :=
  QuantConv2d.mk "lsq.qnn" 3 32 (3, 3) 1 1 1 (VInt 8) (VBool false)
    (normal_ (of_int 0) (ssqrt (sdiv (lit 2 1) (of_int 288)))) None.

Definition sample_fc : QuantLinear.t :=
  QuantLinear.mk "lsq.qnn" 1280 10 (VInt 8) (VBool false)
    (normal_ (of_int 0) (lit 1 100)) zeros_.

(** ** What the further properties are stated with *)

(** Whether a layer is an input quantizer. *)
Definition is_Identity (m : layer) : bool :=
  match m with Identity _ => true | _ => false end.

(** The arguments [inp, oup, stride, expand_ratio, quant_input] of one
    call [block(...)]. *)
Definition block_args : Type := Z * Z * Z * Z * bool.

Definition call_block (g : globals) (a : block_args) : result InvertedResidual.t :=
  let '(inp, oup, s, t, qi) := a in InvertedResidual.init g inp oup s t qi.

(** The calls of one stage of [n] blocks with [out] output channels,
    entered with [inp] channels: the first takes the stage's stride, the
    others stride 1 and [out] input channels. *)
Definition stage_plan (inp out s t : Z) (qi : bool) (n : nat) : list block_args :=
  match n with
  | O => []
  | S k => (inp, out, s, t, qi) :: repeat (out, out, 1, t, qi) k
  end.

(** The calls of all stages, for rows [t, c, n, s, q] whose scaled channel
    counts are [outs], and the channel count they end with. *)
Fixpoint plan (rows : list (Z * Z * nat * Z * bool)) (outs : list Z) (inp : Z)
    : list block_args :=
  match rows, outs with
  | (t, c, n, s, qi) :: rows', out :: outs' =>
      stage_plan inp out s t qi n
      ++ plan rows' outs' (match n with O => inp | S _ => out end)
  | _, _ => []
  end.

Fixpoint plan_out (rows : list (Z * Z * nat * Z * bool)) (outs : list Z) (inp : Z) : Z :=
  match rows, outs with
  | (t, c, n, s, qi) :: rows', out :: outs' =>
      plan_out rows' outs' (match n with O => inp | S _ => out end)
  | _, _ => inp
  end.

(** A module as its constructor left it: the same layer with every
    parameter back at [by_constructor]. *)
Definition strip_conv (m : QuantConv2d.t) : QuantConv2d.t :=
  QuantConv2d.mk (QuantConv2d.qnn m)
    (QuantConv2d.in_channels m) (QuantConv2d.out_channels m)
    (QuantConv2d.kernel_size m) (QuantConv2d.stride m)
    (QuantConv2d.padding m) (QuantConv2d.groups m)
    (QuantConv2d.nbits m) (QuantConv2d.symmetric m)
    by_constructor
    (match QuantConv2d.bias m with
     | Some _ => Some by_constructor
     | None => None
     end).

Definition strip_linear (m : QuantLinear.t) : QuantLinear.t :=
  QuantLinear.mk (QuantLinear.qnn m)
    (QuantLinear.in_features m) (QuantLinear.out_features m)
    (QuantLinear.nbits m) (QuantLinear.symmetric m)
    by_constructor by_constructor.

Definition strip_layer (m : layer) : layer :=
  match m with
  | Conv c => Conv (strip_conv c)
  | Linear l => Linear (strip_linear l)
  | BatchNorm b => BatchNorm (BatchNorm2d.new (BatchNorm2d.num_features b))
  | ReLU6 _ | Identity _ => m
  end.

Definition strip_block (m : ConvBNReLU.t) : ConvBNReLU.t :=
  ConvBNReLU.mk (ConvBNReLU.quant_act m) (strip_conv (ConvBNReLU.conv m))
    (BatchNorm2d.new (BatchNorm2d.num_features (ConvBNReLU.bn m)))
    (ConvBNReLU.act m).

Definition strip_submodule (m : submodule) : submodule :=
  match m with
  | Block b => Block (strip_block b)
  | Layer l => Layer (strip_layer l)
  end.

Definition strip_residual (m : InvertedResidual.t) : InvertedResidual.t :=
  InvertedResidual.mk (InvertedResidual.stride m)
    (InvertedResidual.use_res_connect m)
    (map strip_submodule (InvertedResidual.conv m)).

Definition strip_feature (m : feature) : feature :=
  match m with
  | Plain b => Plain (strip_block b)
  | Residual r => Residual (strip_residual r)
  end.

(** The block table of the CIFAR class with the default
    [quant_input=True] of its [block(...)] calls written out. *)
Definition cifar_rows : list (Z * Z * nat * Z * bool) :=
  map (fun '(t, c, n, s) => (t, c, n, s, true))
    MobileNetV2_CIFAR.inverted_residual_setting.

(** What either network class builds before it initialises the weights,
    from the module state [g]: a stem with stride [stride0], the blocks of
    the [rows], a last 1x1 block constructed with [quant_input = qlast],
    and the classifier. *)
Definition built (g : globals) (stride0 : Z)
    (rows : list (Z * Z * nat * Z * bool)) (qlast : bool)
    (num_classes : Z) (w : float)
    (features : list feature) (classifier : list layer) (last_channel : Z)
    : Prop :=
  exists c0 outs bw first blocks last fc,
    int_mul 32 w = Return c0 /\
    int_mul 1280 (fmax f1_0 w) = Return last_channel /\
    Forall2 (fun '(t, c, n, s, qi) out => int_mul c w = Return out) rows outs /\
    qcfg_get g "first_conv_bitw" = Return bw /\
    ConvBNReLU.init g 3 c0 3 stride0 1 bw true = Return first /\
    Forall2 (fun a r => call_block g a = Return r) (plan rows outs c0) blocks /\
    ConvBNReLU.init g (plan_out rows outs c0) last_channel 1 1 1 VNone qlast
      = Return last /\
    last_fc g last_channel num_classes = Return fc /\
    features = Plain first :: map Residual blocks ++ [Plain last] /\
    classifier = [Linear fc].

(** The constants in which the two network classes differ. *)
Definition stem_stride (m : model) : Z :=
  match m with ImageNetModel _ => 2 | CifarModel _ => 1 end.

Definition model_rows (m : model) : list (Z * Z * nat * Z * bool) :=
  match m with
  | ImageNetModel _ => MobileNetV2.inverted_residual_setting
  | CifarModel _ => cifar_rows
  end.

Definition last_quant_input (m : model) : bool :=
  match m with ImageNetModel _ => false | CifarModel _ => true end.

Definition model_last_channel (m : model) : Z :=
  match m with
  | ImageNetModel n => MobileNetV2.last_channel n
  | CifarModel n => MobileNetV2_CIFAR.last_channel n
  end.

(** Channel bookkeeping: what a layer makes of an input with [c]
    channels (or features), [None] when the layer was declared for another
    count.  A convolution is either ordinary ([groups = 1]) or depthwise
    ([groups = in_channels = out_channels]). *)
Definition flow1 (c : Z) (m : layer) : option Z :=
  match m with
  | Conv v =>
      if (QuantConv2d.in_channels v =? c)
         && ((QuantConv2d.groups v =? 1)
             || ((QuantConv2d.groups v =? c) && (QuantConv2d.out_channels v =? c)))
      then Some (QuantConv2d.out_channels v) else None
  | BatchNorm b => if BatchNorm2d.num_features b =? c then Some c else None
  | Linear l =>
      if QuantLinear.in_features l =? c then Some (QuantLinear.out_features l)
      else None
  | ReLU6 _ | Identity _ => Some c
  end.

Fixpoint flows (c : Z) (l : list layer) : option Z :=
  match l with
  | [] => Some c
  | m :: l' =>
      match flow1 c m with
      | Some c' => flows c' l'
      | None => None
      end
  end.

(** Stride and skip flag of the residual blocks among the features. *)
Definition residual_summary (fs : list feature) : list (Z * bool) :=
  flat_map (fun f => match f with
                     | Residual r => [(InvertedResidual.stride r,
                                       InvertedResidual.use_res_connect r)]
                     | Plain _ => []
                     end) fs.

(** Stride and skip flag that a call [block(inp, oup, stride, ...)]
    produces. *)
Definition args_summary (a : block_args) : Z * bool :=
  let '(inp, oup, s, t, qi) := a in (s, (s =? 1) && (inp =? oup)).

(** The residual blocks of the ImageNet network: strides 1, 2, 2, 2, 1,
    2, 1 for the first block of the seven stages, 1 inside a stage. *)
Definition imagenet_skips (b1 b5 b7 : bool) : list (Z * bool) :=
  [ (1, b1);
    (2, false); (1, true);
    (2, false); (1, true); (1, true);
    (2, false); (1, true); (1, true); (1, true);
    (1, b5); (1, true); (1, true);
    (2, false); (1, true); (1, true);
    (1, b7) ].

(** The residual blocks of the CIFAR network: strides 1, 1, 1, 2, 1, 2, 1
    for the first block of the seven stages. *)
Definition cifar_skips (b1 b2 b3 b5 b7 : bool) : list (Z * bool) :=
  [ (1, b1);
    (1, b2); (1, true);
    (1, b3); (1, true); (1, true);
    (2, false); (1, true); (1, true); (1, true);
    (1, b5); (1, true); (1, true);
    (2, false); (1, true); (1, true);
    (1, b7) ].

(** A layer that comes from the namespace [q] and carries the options of
    [cfg], with [wbits] as the bit-width of weights and input quantizers. *)
Definition quantized (cfg : config) (q : module_ref) (wbits : value)
    (m : layer) : Prop :=
  match m with
  | Conv c =>
      QuantConv2d.qnn c = q /\ QuantConv2d.nbits c = wbits /\
      QuantConv2d.symmetric c = symmetric cfg
  | Identity i =>
      QuantIdentity.qnn i = q /\ QuantIdentity.nbits i = wbits /\
      QuantIdentity.symmetric i = symmetric cfg
  | ReLU6 a =>
      QuantReLU6.qnn a = q /\ QuantReLU6.nbits a = bita cfg /\
      QuantReLU6.inplace a = false
  | Linear l =>
      QuantLinear.qnn l = q /\ QuantLinear.nbits l = last_fc_bitw cfg /\
      QuantLinear.symmetric l = symmetric cfg
  | BatchNorm _ => True
  end.

(** The bit-width of the first convolution: [first_conv_bitw], or [bitw]
    when that option is [None]. *)
Definition first_bits (cfg : config) : value :=
  if is_None (first_conv_bitw cfg) then bitw cfg else first_conv_bitw cfg.

(** The forward pass of either network class. *)
Definition model_forward (m : model) (x : tensor) : tensor :=
  match m with
  | ImageNetModel n => MobileNetV2.forward n x
  | CifarModel n => MobileNetV2_CIFAR.forward n x
  end.

(** The layers a tensor has gone through, oldest first, and the number of
    additions on the way; at a skip connection [x + conv(x)] the way goes
    through [conv]. *)
Fixpoint applied (x : tensor) : list layer :=
  match x with
  | input => []
  | call m x' => applied x' ++ [m]
  | add _ y => applied y
  | mean _ x' => applied x'
  end.

Fixpoint additions (x : tensor) : nat :=
  match x with
  | input => 0
  | call _ x' => additions x'
  | add _ y => S (additions y)
  | mean _ x' => additions x'
  end.

Definition skip_count (fs : list feature) : nat :=
  length (List.filter snd (residual_summary fs)).

(** The number of input quantizers a call [block(...)] creates. *)
Definition identity_in (a : block_args) : nat :=
  let '(inp, oup, s, t, qi) := a in
  if (t =? 1) || qi then 0%nat else 1%nat.

(** Column [c] of a row of the block table. *)
Definition row_channel (row : Z * Z * nat * Z * bool) : Z :=
  let '(t, c, n, s, qi) := row in c.

(** A convolution whose [fan] is positive; any other layer. *)
Definition conv_positive (m : layer) : Prop :=
  match m with
  | Conv c => 0 < fan c
  | _ => True
  end.


(** The functions that the [register_hooks] calls among [cs] name for
    the location [loc], in the order of the calls. *)
Definition registered (cs : list step) (loc : string) : list hook :=
  flat_map (fun c => match c with
                     | RegisterHooks l func => if String.eqb l loc then func else []
                     | _ => []
                     end) cs.

Definition is_training_hook (h : hook) : bool :=
  match h with
  | step_lr_epoch | step_lr_batch | save_train | load_init | load_resume => true
  | _ => false
  end.

(** ** The draws of the initialisation loop

    [normal_] draws from the default random generator of the tensor
    library, which is external.  The generator is modelled by its state,
    which a seed set upstream of [set_model] fixes: a draw returns the
    tensor drawn and the state it leaves the generator in.  What the code
    decides is which draws are made, in which order and with which
    parameters. *)

(** The two parameters of a layer that the loop assigns. *)
Inductive slot : Type := Weight | Bias.

(** The initialisers that a layer holds for its weight and bias. *)
Definition layer_parameters (m : layer)
    : option initialiser * option initialiser :=
  match m with
  | Conv c => (Some (QuantConv2d.weight c), QuantConv2d.bias c)
  | BatchNorm b => (Some (BatchNorm2d.weight b), Some (BatchNorm2d.bias b))
  | Linear l => (Some (QuantLinear.weight l), Some (QuantLinear.bias l))
  | ReLU6 _ | Identity _ => (None, None)
  end.

Section Sampling.

Variable generator : Type.
Variable tensor_data : Type.

(** [p.normal_(mean, std)] for the parameter [p] of a layer. *)
Variable normal :
  generator -> layer -> slot -> scalar -> scalar -> tensor_data * generator.

(** [p.fill_(v)] and [p.zero_()], which draw nothing. *)
Variable constant : layer -> slot -> Z -> tensor_data.

(** The state in which the constructors of the given layers, called in
    this order, leave the generator: they draw default values, which the
    loop then overwrites. *)
Variable constructed : generator -> list layer -> generator.

(** The value an initialiser gives a parameter, [None] for a parameter
    left as its constructor made it, and the state of the generator
    afterwards. *)
Definition fill (s : generator) (m : layer) (p : slot)
    (i : option initialiser) : option tensor_data * generator :=
  match i with
  | None | Some by_constructor => (None, s)
  | Some (normal_ mu sigma) =>
      let '(d, s') := normal s m p mu sigma in (Some d, s')
  | Some ones_ => (Some (constant m p 1), s)
  | Some zeros_ => (Some (constant m p 0), s)
  end.

(** One round of the loop: the weight is assigned before the bias. *)
Definition fill_layer (s : generator) (m : layer)
    : (option tensor_data * option tensor_data) * generator :=
  let '(w, s1) := fill s m Weight (fst (layer_parameters m)) in
  let '(b, s2) := fill s1 m Bias (snd (layer_parameters m)) in
  ((w, b), s2).

(** [for m in self.modules()], in the order of the modules. *)
Fixpoint fill_layers (s : generator) (ms : list layer)
    : list (option tensor_data * option tensor_data) * generator :=
  match ms with
  | [] => ([], s)
  | m :: ms' =>
      let '(p, s1) := fill_layer s m in
      let '(ps, s2) := fill_layers s1 ms' in
      (p :: ps, s2)
  end.

(** The parameter values of the model that [set_model] returns when the
    generator is in state [s] at the call, layer by layer, and the state
    of the generator at the return. *)
Definition drawn_parameters (cfg : config) (q : module_ref) (g : globals)
    (s : generator)
    : result (list (option tensor_data * option tensor_data) * generator) :=
  '(m, _) ← snd (set_model cfg q g);
  Return (fill_layers (constructed s (map strip_layer (model_layers m)))
            (model_layers m)).

End Sampling.

Arguments fill {generator tensor_data}.
Arguments fill_layer {generator tensor_data}.
Arguments fill_layers {generator tensor_data}.
Arguments drawn_parameters {generator tensor_data}.

(** * Properties *)

(** ** The range of a float *)

(** [float_limit] is where the conversion of an integer starts to
    overflow: the integer just below it still rounds to a finite double. *)
Lemma float_limit_overflows :
  float_of_Z float_limit = SpecFloat.S754_infinity false /\
  float_of_Z (- float_limit) = SpecFloat.S754_infinity true /\
  float_of_Z (float_limit - 1)
  = SpecFloat.S754_finite false (2 ^ 53 - 1) 971 /\
  float_of_Z (- (float_limit - 1))
  = SpecFloat.S754_finite true (2 ^ 53 - 1) 971.
Proof. vm_compute. by repeat split. Qed.

(** ** The result monad *)

Lemma bind_Return {A B} (c : result A) (k : A -> result B) (b : B) :
  c ≫= k = Return b -> exists a, c = Return a /\ k a = Return b.
Proof.
  destruct c as [a|e]; simpl; intros H; [eauto | discriminate].
Qed.

Lemma bind_Return_l {A B} (a : A) (k : A -> result B) :
  Return a ≫= k = k a.
Proof. reflexivity. Qed.

Ltac bind_inv H :=
  let a := fresh "a" in
  let Ha := fresh "Ha" in
  apply bind_Return in H; destruct H as (a & Ha & H).

Lemma Return_inj {A} (a b : A) : Return a = Return b -> a = b.
Proof. congruence. Qed.

(** ** Tensors *)

Lemma add_neq_right (x y : tensor) : add x y <> y.
Proof.
  intros H. apply (f_equal tensor_size) in H. simpl in H. lia.
Qed.

Lemma call_neq_arg (m : layer) (x : tensor) : call m x <> x.
Proof.
  intros H. apply (f_equal tensor_size) in H. simpl in H. lia.
Qed.

(** ** Strings *)

Lemma str_in_elem_of (x : string) (l : list string) :
  str_in x l = true <-> x ∈ l.
Proof.
  unfold str_in. rewrite existsb_exists. split.
  - intros (y & Hy & E). apply String.eqb_eq in E. subst.
    by apply list_elem_of_In.
  - intros H. exists x. split; [by apply list_elem_of_In | apply String.eqb_refl].
Qed.

Lemma str_in_not_elem_of (x : string) (l : list string) :
  str_in x l = false <-> x ∉ l.
Proof.
  rewrite <- str_in_elem_of. destruct (str_in x l); split; congruence.
Qed.

(** ** Architecture naming *)

(** C7. [set_arch_name] is a function of the fields [arch], [layers] and
    [width_mult] of the configuration (and of nothing else); it yields
    "resnet-50" for arch "resnet" with 50 layers, "mobilenetv2" for arch
    "mobilenetv2" with width multiplier 1.0, and "mobilenetv2x0.5" for
    width multiplier 0.5, given that the interpreter prints 0.5 as "0.5";
    for "mobilenetv2" the suffix is there exactly when the width
    multiplier differs from 1.0. *)
Theorem set_arch_name_spec (format_float : float -> string) :
  format_float f0_5 = "0.5" ->
  (forall cfg cfg',
     arch cfg = arch cfg' -> layers cfg = layers cfg' ->
     width_mult cfg = width_mult cfg' ->
     set_arch_name format_float cfg = set_arch_name format_float cfg') /\
  (forall cfg, arch cfg = "resnet" -> layers cfg = 50 ->
     set_arch_name format_float cfg = "resnet-50") /\
  (forall cfg, arch cfg = "mobilenetv2" -> width_mult cfg = f1_0 ->
     set_arch_name format_float cfg = "mobilenetv2") /\
  (forall cfg, arch cfg = "mobilenetv2" -> width_mult cfg = f0_5 ->
     set_arch_name format_float cfg = "mobilenetv2x0.5") /\
  (forall cfg, arch cfg = "mobilenetv2" ->
     set_arch_name format_float cfg =
       (if feqb (width_mult cfg) f1_0 then "mobilenetv2"
        else "mobilenetv2x" +:+ format_float (width_mult cfg)) /\
     (set_arch_name format_float cfg = "mobilenetv2" <->
      feqb (width_mult cfg) f1_0 = true)).
Proof.
  intros Hfmt. repeat split.
  - intros cfg cfg' Ha Hl Hw. unfold set_arch_name. by rewrite Ha, Hl, Hw.
  - intros cfg Ha Hl. unfold set_arch_name. by rewrite Ha, Hl.
  - intros cfg Ha Hw. unfold set_arch_name. by rewrite Ha, Hw.
  - intros cfg Ha Hw. unfold set_arch_name. rewrite Ha, Hw. simpl.
    by rewrite Hfmt.
  - unfold set_arch_name. rewrite H. simpl.
    by destruct (feqb (width_mult cfg) f1_0).
  - unfold set_arch_name. rewrite H. simpl.
    destruct (feqb (width_mult cfg) f1_0); simpl; [done | discriminate].
  - unfold set_arch_name. rewrite H. simpl. by intros ->.
Qed.

Lemma set_arch_name_spec_witness :
  format_exact f0_5 = "0.5" /\
  set_arch_name format_exact
    (Config "resnet" 50 f1_0 "cifar10" VNone VNone VNone VNone VNone
            "lsq" "train" None false "epoch") = "resnet-50" /\
  set_arch_name format_exact (sample_cfg "cifar10" f0_5 "train" "epoch")
    = "mobilenetv2x0.5".
Proof.
  assert (H : format_exact f0_5 = "0.5") by reflexivity.
  split; [exact H |].
  destruct (set_arch_name_spec format_exact H) as (_ & Hr & _ & Hh & _).
  split; [apply Hr | apply Hh]; reflexivity.
Defined.

(** ** [set_model]: unrecognized datasets *)

Lemma set_model_globals (cfg : config) (q : module_ref) (g : globals) :
  fst (set_model cfg q g) = Globals (Some q) (Some (qcfg_of cfg)).
Proof. reflexivity. Qed.

Lemma unrecognized_branches (ds : string) :
  ds ∉ recognized ->
  str_in ds ["cifar10"; "cifar100"] = false /\ str_in ds ["imagenet"] = false.
Proof.
  intros H. split; apply str_in_not_elem_of; intros Hin; apply H;
    revert Hin; unfold recognized; rewrite !elem_of_cons; tauto.
Qed.

Lemma set_model_raises (cfg : config) (q : module_ref) (g : globals) :
  dataset cfg ∉ recognized ->
  snd (set_model cfg q g)
  = Raise (Exception "Undefined dataset for MobileNetV2 architecture.").
Proof.
  intros H. destruct (unrecognized_branches _ H) as [H1 H2].
  unfold set_model. cbn [snd]. by rewrite H1, H2.
Qed.

(** C2. For a configuration whose dataset name is none of cifar10,
    cifar100 and imagenet, [set_model] raises the exception "Undefined
    dataset for MobileNetV2 architecture." and so returns no model. *)
Theorem set_model_unrecognized (cfg : config) (q : module_ref) (g : globals) :
  dataset cfg ∉ recognized ->
  snd (set_model cfg q g)
    = Raise (Exception "Undefined dataset for MobileNetV2 architecture.") /\
  (forall m size, snd (set_model cfg q g) <> Return (m, size)).
Proof.
  intros H. rewrite (set_model_raises cfg q g H). split; [done | discriminate].
Qed.

Lemma set_model_unrecognized_witness :
  snd (set_model (sample_cfg "mnist" f1_0 "train" "epoch") "lsq.qnn" fresh_globals)
    = Raise (Exception "Undefined dataset for MobileNetV2 architecture.").
Proof.
  apply (set_model_unrecognized (sample_cfg "mnist" f1_0 "train" "epoch")).
  unfold recognized. rewrite !elem_of_cons, elem_of_nil. simpl.
  intros [E | [E | [E | []]]]; discriminate E.
Defined.

(** C9. When [set_model] raises for an unrecognized dataset name, the
    module state it leaves has [qnn] bound to the argument and [qcfg] to a
    dictionary holding the five quantization options of the
    configuration; unless the module state was that already, the failed
    call has changed it. *)
Theorem set_model_failure_not_atomic (cfg : config) (q : module_ref) (g : globals) :
  dataset cfg ∉ recognized ->
  let g' := fst (set_model cfg q g) in
  (exists e, snd (set_model cfg q g) = Raise e) /\
  g_qnn g' = Some q /\
  (exists d, g_qcfg g' = Some d /\
     d !! "bitw" = Some (bitw cfg) /\
     d !! "bita" = Some (bita cfg) /\
     d !! "first_conv_bitw" = Some (first_conv_bitw cfg) /\
     d !! "last_fc_bitw" = Some (last_fc_bitw cfg) /\
     d !! "symmetric" = Some (symmetric cfg)) /\
  (g <> Globals (Some q) (Some (qcfg_of cfg)) -> g' <> g).
Proof.
  intros H g'. subst g'. rewrite set_model_globals. repeat split.
  - eexists. by apply set_model_raises.
  - exists (qcfg_of cfg). split; [done |]. unfold qcfg_of.
    repeat split; by simplify_map_eq.
  - intros Hne Heq. by apply Hne.
Qed.

Lemma set_model_failure_not_atomic_witness :
  fst (set_model (sample_cfg "mnist" f1_0 "train" "epoch") "lsq.qnn" fresh_globals)
    <> fresh_globals.
Proof.
  assert (Hds : dataset (sample_cfg "mnist" f1_0 "train" "epoch") ∉ recognized).
  { unfold recognized. rewrite !elem_of_cons, elem_of_nil. simpl.
    intros [E | [E | [E | []]]]; discriminate E. }
  destruct (set_model_failure_not_atomic _ "lsq.qnn" fresh_globals Hds)
    as (_ & _ & _ & Hchg).
  apply Hchg. discriminate.
Defined.

(** ** Blocks *)

Lemma ConvBNReLU_init_quant_act (g : globals) (in_planes out_planes
    kernel_size stride groups : Z) (bitw : value) (quant_input : bool)
    (b : ConvBNReLU.t) :
  ConvBNReLU.init g in_planes out_planes kernel_size stride groups bitw quant_input
    = Return b ->
  if quant_input then ConvBNReLU.quant_act b = None
  else exists q, ConvBNReLU.quant_act b = Some q /\ identity g bitw = Return q.
Proof.
  unfold ConvBNReLU.init. intros H.
  destruct quant_input; cbn [negb] in H.
  - rewrite bind_Return_l in H. bind_inv H. bind_inv H.
    apply Return_inj in H. by subst b.
  - bind_inv H. bind_inv Ha. apply Return_inj in Ha. subst a.
    bind_inv H. bind_inv H. apply Return_inj in H. subst b. simpl. eauto.
Qed.

(** C10. A [ConvBNReLU] block has an input-quantization layer exactly
    when it was constructed with [quant_input=False], and its forward pass
    then applies that layer to the input before the convolution; when
    constructed with [quant_input=True] it has none and
    [forward(x) = act(bn(conv(x)))]. *)
Theorem ConvBNReLU_forward_spec (g : globals) (in_planes out_planes
    kernel_size stride groups : Z) (bitw : value) (quant_input : bool)
    (b : ConvBNReLU.t) (x : tensor) :
  ConvBNReLU.init g in_planes out_planes kernel_size stride groups bitw quant_input
    = Return b ->
  let plain y :=
    call (ReLU6 (ConvBNReLU.act b))
      (call (BatchNorm (ConvBNReLU.bn b)) (call (Conv (ConvBNReLU.conv b)) y)) in
  (quant_input = true ->
     ConvBNReLU.quant_act b = None /\ ConvBNReLU.forward b x = plain x) /\
  (quant_input = false ->
     exists q, ConvBNReLU.quant_act b = Some q /\
               ConvBNReLU.forward b x = plain (call (Identity q) x)) /\
  ((exists q, ConvBNReLU.forward b x = plain (call (Identity q) x))
     <-> quant_input = false) /\
  (ConvBNReLU.forward b x = plain x <-> quant_input = true).
Proof.
  intros H plain. apply ConvBNReLU_init_quant_act in H.
  unfold ConvBNReLU.forward. subst plain. cbv beta.
  destruct quant_input.
  - rewrite H. repeat split; try done.
    intros [q Hq]. injection Hq as Hq. symmetry in Hq. by apply call_neq_arg in Hq.
  - destruct H as (q & Hq & _). rewrite Hq. repeat split; try done; eauto.
    intros Hq'. injection Hq' as Hq'. by apply call_neq_arg in Hq'.
Qed.

Lemma ConvBNReLU_forward_spec_witness :
  exists b,
    ConvBNReLU.init ready_globals 320 1280 1 1 1 VNone false = Return b /\
    exists q, ConvBNReLU.forward b input
              = call (ReLU6 (ConvBNReLU.act b))
                  (call (BatchNorm (ConvBNReLU.bn b))
                     (call (Conv (ConvBNReLU.conv b)) (call (Identity q) input))).
Proof.
  eexists. split; [reflexivity |].
  eapply (ConvBNReLU_forward_spec ready_globals 320 1280 1 1 1 VNone false);
    reflexivity.
Defined.

Lemma InvertedResidual_init_inv (g : globals) (inp oup stride expand_ratio : Z)
    (quant_input : bool) (r : InvertedResidual.t) :
  InvertedResidual.init g inp oup stride expand_ratio quant_input = Return r ->
  (stride = 1 \/ stride = 2) /\
  InvertedResidual.stride r = stride /\
  InvertedResidual.use_res_connect r = (stride =? 1) && (inp =? oup).
Proof.
  unfold InvertedResidual.init. intros H.
  destruct ((stride =? 1) || (stride =? 2)) eqn:Hs; cbn [negb] in H;
    [| discriminate].
  bind_inv H. bind_inv H. bind_inv H. apply Return_inj in H. subst r.
  simpl. repeat split. lia.
Qed.

(** C1. For an [InvertedResidual] block constructed with [inp], [oup]
    and [stride] (which construction requires to be 1 or 2), the forward
    pass returns [x + conv(x)] if and only if [stride == 1] and
    [inp == oup], and returns [conv(x)] otherwise. *)
Theorem InvertedResidual_skip_iff (g : globals) (inp oup stride expand_ratio : Z)
    (quant_input : bool) (r : InvertedResidual.t) (x : tensor) :
  InvertedResidual.init g inp oup stride expand_ratio quant_input = Return r ->
  let body := Sequential.forward (InvertedResidual.conv r) x in
  (stride = 1 \/ stride = 2) /\
  (InvertedResidual.forward r x = add x body <-> stride = 1 /\ inp = oup) /\
  (InvertedResidual.forward r x = body <-> ~ (stride = 1 /\ inp = oup)).
Proof.
  intros H body. apply InvertedResidual_init_inv in H as (Hs & _ & Hu).
  split; [exact Hs |].
  unfold InvertedResidual.forward. rewrite Hu. fold body.
  destruct (Z.eqb_spec stride 1) as [E1 | E1];
    destruct (Z.eqb_spec inp oup) as [E2 | E2]; cbn [andb].
  - split; split; try tauto. intros HH. by apply add_neq_right in HH.
  - split; split; try tauto. intros HH. symmetry in HH.
    by apply add_neq_right in HH.
  - split; split; try tauto. intros HH. symmetry in HH.
    by apply add_neq_right in HH.
  - split; split; try tauto. intros HH. symmetry in HH.
    by apply add_neq_right in HH.
Qed.

Lemma InvertedResidual_skip_iff_witness :
  exists r,
    InvertedResidual.init ready_globals 24 24 1 6 false = Return r /\
    InvertedResidual.forward r input
    = add input (Sequential.forward (InvertedResidual.conv r) input).
Proof.
  eexists. split; [reflexivity |].
  eapply (InvertedResidual_skip_iff ready_globals 24 24 1 6 false);
    [reflexivity | split; reflexivity].
Defined.

(** ** [main]: the quantizer's extension point *)

Lemma main_train_shape (cfg : config) (q : quantizer) :
  run_type cfg = "train" ->
  exists regs,
    forallb is_register regs = true /\
    main cfg q = regs ++ (match add_hooks q with
                          | Some _ => [AddHooks]
                          | None => []
                          end) ++ [Train].
Proof.
  intros Hrt. unfold main. rewrite Hrt.
  change (String.eqb "train" "train") with true. cbv iota.
  destruct (load cfg) as [path |]; [destruct (resume cfg) |];
    destruct (String.eqb (step_location cfg) "epoch"); cbn [negb app];
    first [ eexists [_; _; _]; split; [| reflexivity]; reflexivity
          | eexists [_; _]; split; [| reflexivity]; reflexivity ].
Qed.

Lemma main_other_modes (cfg : config) (q : quantizer) :
  run_type cfg <> "train" -> ~ In AddHooks (main cfg q).
Proof.
  intros Hrt. unfold main.
  destruct (String.eqb_spec (run_type cfg) "train") as [E | _]; [done |].
  repeat match goal with
         | |- context [String.eqb ?a ?b] => destruct (String.eqb a b)
         end; simpl; intuition discriminate.
Qed.

(** C4 (as amended). In train mode, when the quantizer module has an
    [add_hooks] attribute, [main] invokes it exactly once, after its own
    hook registrations and immediately before [trainer.train()]; in every
    other run mode, and for a quantizer without the attribute, [main]
    never invokes it. *)
Theorem add_hooks_train_only (cfg : config) (q : quantizer) :
  (run_type cfg = "train" -> is_Some (add_hooks q) ->
     count_occ step_eq_dec (main cfg q) AddHooks = 1%nat /\
     exists regs, forallb is_register regs = true /\
                  main cfg q = regs ++ [AddHooks; Train]) /\
  (run_type cfg <> "train" -> count_occ step_eq_dec (main cfg q) AddHooks = 0%nat) /\
  (add_hooks q = None -> count_occ step_eq_dec (main cfg q) AddHooks = 0%nat).
Proof.
  split; [| split].
  - intros Hrt [a Ha]. destruct (main_train_shape cfg q Hrt) as (regs & Hregs & Hm).
    rewrite Ha in Hm. split; [| by exists regs].
    rewrite Hm, count_occ_app. simpl.
    assert (Hz : count_occ step_eq_dec regs AddHooks = 0%nat); [| by rewrite Hz].
    apply count_occ_not_In. intros Hin.
    rewrite forallb_forall in Hregs. by apply Hregs in Hin.
  - intros Hrt. apply count_occ_not_In. by apply main_other_modes.
  - intros Hn.
    apply count_occ_not_In. intros Hin.
    destruct (String.eqb_spec (run_type cfg) "train") as [E | E].
    + destruct (main_train_shape cfg q E) as (regs & Hregs & Hm).
      rewrite Hm, Hn in Hin. rewrite forallb_forall in Hregs.
      apply in_app_or in Hin as [Hin | Hin].
      * by apply Hregs in Hin.
      * simpl in Hin. intuition discriminate.
    + revert Hin. by apply main_other_modes.
Qed.

Lemma add_hooks_train_only_witness :
  count_occ step_eq_dec
    (main (sample_cfg "cifar10" f1_0 "train" "epoch") sample_quantizer) AddHooks
  = 1%nat.
Proof.
  apply (add_hooks_train_only (sample_cfg "cifar10" f1_0 "train" "epoch")
           sample_quantizer); [reflexivity | by eexists].
Defined.

(** C4 as stated fails: in validate mode [main] calls the entry point
    without ever invoking the [add_hooks] that the quantizer has. *)
Lemma add_hooks_every_mode_counterexample :
  let cfg := sample_cfg "cifar10" f1_0 "validate" "epoch" in
  run_type cfg ∈ run_modes /\
  is_Some (add_hooks sample_quantizer) /\
  In Validate (main cfg sample_quantizer) /\
  count_occ step_eq_dec (main cfg sample_quantizer) AddHooks <> 1%nat.
Proof.
  cbv zeta. repeat split.
  - unfold run_modes. simpl. rewrite !elem_of_cons. tauto.
  - by eexists.
  - simpl. tauto.
  - simpl. discriminate.
Qed.

(** ** The hook registry *)

Lemma hooks_at_new (e a b c : nat) (loc : string) :
  Trainer.hooks_at (Trainer.new e a b c) loc = [].
Proof. unfold Trainer.hooks_at, Trainer.new. simpl. by rewrite lookup_empty. Qed.

Lemma hooks_at_register (loc loc' : string) (func : list hook) (tr : Trainer.t) :
  Trainer.hooks_at (Trainer.register_hooks loc func tr) loc'
  = if decide (loc = loc') then Trainer.hooks_at tr loc ++ func
    else Trainer.hooks_at tr loc'.
Proof.
  unfold Trainer.hooks_at, Trainer.register_hooks. simpl.
  rewrite lookup_insert. by case_decide.
Qed.

Lemma lr_hooks_register (loc loc' : string) (func : list hook) (tr : Trainer.t) :
  lr_hooks (Trainer.register_hooks loc func tr) loc'
  = lr_hooks tr loc'
    ++ (if decide (loc = loc') then List.filter is_lr_step func else []).
Proof.
  unfold lr_hooks. rewrite hooks_at_register. case_decide.
  - subst. apply List.filter_app.
  - by rewrite app_nil_r.
Qed.

Lemma quantizer_hooks_not_lr (names : list string) :
  List.filter is_lr_step (map quantizer_hook names) = [].
Proof. induction names; simpl; auto. Qed.

Lemma lr_hooks_quantizer (regs : list (string * list string)) (tr : Trainer.t)
    (loc' : string) :
  lr_hooks (quantizer_registrations regs tr) loc' = lr_hooks tr loc'.
Proof.
  revert tr. induction regs as [| [loc names] regs IH]; intros tr; [done |].
  unfold quantizer_registrations in *. simpl. rewrite IH, lr_hooks_register.
  rewrite quantizer_hooks_not_lr. case_decide; by rewrite app_nil_r.
Qed.

Lemma perform_add_hooks (q : quantizer) (tr : Trainer.t) :
  perform q AddHooks tr
  = (quantizer_registrations (default [] (add_hooks q)) tr, []).
Proof. reflexivity. Qed.

(** ** Traces *)

Lemma filter_run_hooks (tr : Trainer.t) (loc : string) :
  List.filter is_lr_event (Trainer.run_hooks tr loc)
  = map (Trainer.hook_call loc) (lr_hooks tr loc).
Proof.
  unfold Trainer.run_hooks, lr_hooks.
  induction (Trainer.hooks_at tr loc) as [| h l IH]; [done |].
  simpl. destruct (is_lr_step h); simpl; by rewrite IH.
Qed.

Lemma filter_batches (tr : Trainer.t) (epoch start n : nat) :
  List.filter is_lr_event
    (flat_map (fun b => Trainer.batch_step epoch b
                        :: Trainer.run_hooks tr "after_batch") (seq start n))
  = concat (repeat (map (Trainer.hook_call "after_batch")
                      (lr_hooks tr "after_batch")) n).
Proof.
  revert start. induction n as [| n IH]; intros start; [done |].
  simpl. rewrite List.filter_app, filter_run_hooks, IH. reflexivity.
Qed.

Lemma filter_run_epoch (tr : Trainer.t) (batches epoch : nat) :
  List.filter is_lr_event (Trainer.run_epoch tr batches epoch)
  = map (Trainer.hook_call "before_epoch") (lr_hooks tr "before_epoch")
    ++ concat (repeat (map (Trainer.hook_call "after_batch")
                         (lr_hooks tr "after_batch")) batches)
    ++ map (Trainer.hook_call "after_epoch") (lr_hooks tr "after_epoch").
Proof.
  unfold Trainer.run_epoch.
  by rewrite !List.filter_app, !filter_run_hooks, filter_batches.
Qed.

Lemma filter_epochs (tr : Trainer.t) (batches start n : nat) (per_epoch : list Trainer.event) :
  (forall epoch, List.filter is_lr_event (Trainer.run_epoch tr batches epoch) = per_epoch) ->
  List.filter is_lr_event (flat_map (Trainer.run_epoch tr batches) (seq start n))
  = concat (repeat per_epoch n).
Proof.
  intros H. revert start. induction n as [| n IH]; intros start; [done |].
  simpl. by rewrite List.filter_app, H, IH.
Qed.

Lemma concat_repeat_singleton {A} (x : A) (n : nat) :
  concat (repeat [x] n) = repeat x n.
Proof. induction n; simpl; congruence. Qed.

Lemma concat_repeat_nil {A} (n : nat) :
  concat (repeat (@nil A) n) = [].
Proof. induction n; simpl; congruence. Qed.

Lemma concat_repeat_repeat {A} (x : A) (n m : nat) :
  concat (repeat (repeat x m) n) = repeat x (n * m).
Proof.
  induction n; simpl; [done |]. by rewrite IHn, repeat_app.
Qed.

Lemma register_hooks_loaders (regs : list (string * list string)) (t0 : Trainer.t) :
  Trainer.train_loader (quantizer_registrations regs t0) = Trainer.train_loader t0 /\
  Trainer.epochs (quantizer_registrations regs t0) = Trainer.epochs t0.
Proof.
  revert t0. induction regs as [| [loc names] regs IH]; intros t0; [done |].
  unfold quantizer_registrations in *. simpl.
  by destruct (IH (Trainer.register_hooks loc (map quantizer_hook names) t0))
    as [-> ->].
Qed.

Lemma perform_all_loaders (q : quantizer) (cs : list step) (t0 : Trainer.t) :
  Trainer.train_loader (fst (perform_all q cs t0)) = Trainer.train_loader t0 /\
  Trainer.epochs (fst (perform_all q cs t0)) = Trainer.epochs t0.
Proof.
  revert t0. induction cs as [| c cs IH]; intros t0; [done |].
  cbn [perform_all].
  destruct (perform q c t0) as [t1 e1] eqn:Hp.
  specialize (IH t1). destruct (perform_all q cs t1) as [t2 e2]. cbn [fst] in *.
  assert (Hk : Trainer.train_loader t1 = Trainer.train_loader t0 /\
               Trainer.epochs t1 = Trainer.epochs t0).
  { destruct c; simpl in Hp; inversion Hp; subst; try done.
    apply register_hooks_loaders. }
  destruct Hk as [<- <-]. exact IH.
Qed.

(** ** [main] in train mode: the scheduler step *)

Lemma run_main_train (cfg : config) (q : quantizer) (tr0 : Trainer.t) :
  run_type cfg = "train" ->
  snd (run_main cfg q tr0) = Trainer.train (fst (run_main cfg q tr0)) /\
  forall loc,
    lr_hooks (fst (run_main cfg q tr0)) loc
    = lr_hooks tr0 loc
      ++ (if String.eqb (step_location cfg) "epoch"
          then (if decide (loc = "after_epoch") then [step_lr_epoch] else [])
          else (if decide (loc = "after_batch") then [step_lr_batch] else [])).
Proof.
  intros Hrt. unfold run_main, main. rewrite Hrt.
  change (String.eqb "train" "train") with true. cbv iota.
  destruct (load cfg) as [path |]; [destruct (resume cfg) |];
    destruct (String.eqb (step_location cfg) "epoch");
    destruct (add_hooks q) as [regs |] eqn:Hq;
    cbn [negb app perform_all perform fst snd];
    rewrite ?Hq; cbn [default];
    (split; [by rewrite ?app_nil_r |]); intros loc;
    rewrite ?lr_hooks_quantizer, ?lr_hooks_register;
    cbn [List.filter is_lr_step];
    repeat case_decide; subst; try discriminate;
    rewrite ?app_nil_r; try reflexivity; congruence.
Qed.

(** C3. In train mode [main] registers exactly one scheduler-step hook:
    [step_lr_epoch] at [after_epoch] when [step_location] is "epoch", and
    [step_lr_batch] at [after_batch] for any other value; no location holds
    another one.  Run by the trainer, the former is called once in every
    epoch, after the epoch, and never after a batch; the latter once after
    every batch and never after an epoch. *)
Theorem scheduler_step_placement (cfg : config) (q : quantizer)
    (epochs train_batches val_batches test_batches : nat) :
  run_type cfg = "train" ->
  let tr0 := Trainer.new epochs train_batches val_batches test_batches in
  let tr := fst (run_main cfg q tr0) in
  let trace := snd (run_main cfg q tr0) in
  trace = Trainer.train tr /\
  (step_location cfg = "epoch" ->
     (forall loc, lr_hooks tr loc
                  = if decide (loc = "after_epoch") then [step_lr_epoch] else []) /\
     (forall epoch,
        List.filter is_lr_event (Trainer.run_epoch tr train_batches epoch)
        = [Trainer.hook_call "after_epoch" step_lr_epoch]) /\
     List.filter is_lr_event trace
     = repeat (Trainer.hook_call "after_epoch" step_lr_epoch) epochs) /\
  (step_location cfg <> "epoch" ->
     (forall loc, lr_hooks tr loc
                  = if decide (loc = "after_batch") then [step_lr_batch] else []) /\
     (forall epoch,
        List.filter is_lr_event (Trainer.run_epoch tr train_batches epoch)
        = repeat (Trainer.hook_call "after_batch" step_lr_batch) train_batches) /\
     List.filter is_lr_event trace
     = repeat (Trainer.hook_call "after_batch" step_lr_batch)
         (epochs * train_batches)).
Proof.
  intros Hrt tr0 tr trace.
  destruct (run_main_train cfg q tr0 Hrt) as [Htrace Hlr].
  fold tr in Htrace, Hlr. fold trace in Htrace.
  assert (Hreg : forall loc,
            lr_hooks tr loc
            = if String.eqb (step_location cfg) "epoch"
              then (if decide (loc = "after_epoch") then [step_lr_epoch] else [])
              else (if decide (loc = "after_batch") then [step_lr_batch] else [])).
  { intros loc. rewrite Hlr. unfold tr0, lr_hooks. by rewrite hooks_at_new. }
  assert (Htrain : Trainer.train_loader tr = train_batches /\
                   Trainer.epochs tr = epochs).
  { subst tr tr0. unfold run_main.
    by destruct (perform_all_loaders q (main cfg q)
                   (Trainer.new epochs train_batches val_batches test_batches)). }
  split; [exact Htrace |].
  split.
  - intros Hloc. rewrite Hloc in Hreg.
    change (String.eqb "epoch" "epoch") with true in Hreg. cbv iota in Hreg.
    assert (Hep : forall epoch,
              List.filter is_lr_event (Trainer.run_epoch tr train_batches epoch)
              = [Trainer.hook_call "after_epoch" step_lr_epoch]).
    { intros epoch. rewrite filter_run_epoch, !Hreg.
      repeat case_decide; try discriminate; try congruence. simpl.
      by rewrite concat_repeat_nil. }
    split; [exact Hreg |]. split; [exact Hep |].
    rewrite Htrace. unfold Trainer.train.
    rewrite List.filter_app, filter_run_hooks, Hreg.
    case_decide; [discriminate |]. simpl.
    destruct Htrain as [-> ->].
    rewrite (filter_epochs _ _ _ _ _ Hep). apply concat_repeat_singleton.
  - intros Hloc. apply String.eqb_neq in Hloc. rewrite Hloc in Hreg.
    assert (Hep : forall epoch,
              List.filter is_lr_event (Trainer.run_epoch tr train_batches epoch)
              = repeat (Trainer.hook_call "after_batch" step_lr_batch) train_batches).
    { intros epoch. rewrite filter_run_epoch, !Hreg.
      repeat case_decide; try discriminate; try congruence. simpl.
      by rewrite app_nil_r, concat_repeat_singleton. }
    split; [exact Hreg |]. split; [exact Hep |].
    rewrite Htrace. unfold Trainer.train.
    rewrite List.filter_app, filter_run_hooks, Hreg.
    case_decide; [discriminate |]. simpl.
    destruct Htrain as [-> ->].
    rewrite (filter_epochs _ _ _ _ _ Hep). apply concat_repeat_repeat.
Qed.

Lemma scheduler_step_placement_witness :
  List.filter is_lr_event
    (snd (run_main (sample_cfg "cifar10" f1_0 "train" "epoch") sample_quantizer
            (Trainer.new 2 3 1 1)))
  = [Trainer.hook_call "after_epoch" step_lr_epoch;
     Trainer.hook_call "after_epoch" step_lr_epoch].
Proof.
  pose proof (scheduler_step_placement
                (sample_cfg "cifar10" f1_0 "train" "epoch") sample_quantizer
                2 3 1 1 eq_refl) as H.
  cbv zeta in H. destruct H as (_ & H & _).
  destruct (H eq_refl) as (_ & _ & Htrace). exact Htrace.
Defined.

(** ** [main] in analyze mode *)

Lemma count_check_feature (start n : nat) :
  count_occ event_eq_dec
    (flat_map (fun b => [Trainer.batch_step 0 b;
                         Trainer.hook_call "after_batch" extractor_check_feature])
       (seq start n))
    (Trainer.hook_call "after_batch" extractor_check_feature) = n.
Proof.
  revert start. induction n as [| n IH]; intros start; [done |].
  simpl. by rewrite IH.
Qed.

(** C6. In analyze mode [main] registers, in this order, [load_valid]
    and then the extractor's [initialize] at [before_epoch], its
    [check_feature] at [after_batch] and its [save_feature] at
    [after_epoch]; the run over a loader of N batches is then: checkpoint
    load, buffer initialisation, N times a batch followed by one
    accumulation, and one final flush. *)
Theorem analyze_hook_order (cfg : config) (q : quantizer)
    (epochs train_batches val_batches test_batches : nat) :
  run_type cfg = "analyze" ->
  let tr0 := Trainer.new epochs train_batches val_batches test_batches in
  let tr := fst (run_main cfg q tr0) in
  let trace := snd (run_main cfg q tr0) in
  Trainer.hooks_at tr "before_epoch" = [load_valid; extractor_initialize] /\
  Trainer.hooks_at tr "after_batch" = [extractor_check_feature] /\
  Trainer.hooks_at tr "after_epoch" = [extractor_save_feature] /\
  trace
  = [Trainer.hook_call "before_epoch" load_valid;
     Trainer.hook_call "before_epoch" extractor_initialize]
    ++ flat_map (fun b => [Trainer.batch_step 0 b;
                           Trainer.hook_call "after_batch" extractor_check_feature])
         (seq 0 val_batches)
    ++ [Trainer.hook_call "after_epoch" extractor_save_feature] /\
  count_occ event_eq_dec trace
    (Trainer.hook_call "before_epoch" extractor_initialize) = 1%nat /\
  count_occ event_eq_dec trace
    (Trainer.hook_call "after_batch" extractor_check_feature) = val_batches /\
  count_occ event_eq_dec trace
    (Trainer.hook_call "after_epoch" extractor_save_feature) = 1%nat.
Proof.
  intros Hrt tr0 tr trace.
  assert (Hb : Trainer.hooks_at tr "before_epoch" = [load_valid; extractor_initialize]).
  { subst tr tr0. unfold run_main, main. rewrite Hrt. reflexivity. }
  assert (Ha : Trainer.hooks_at tr "after_batch" = [extractor_check_feature]).
  { subst tr tr0. unfold run_main, main. rewrite Hrt. reflexivity. }
  assert (He : Trainer.hooks_at tr "after_epoch" = [extractor_save_feature]).
  { subst tr tr0. unfold run_main, main. rewrite Hrt. reflexivity. }
  assert (Ht : trace = Trainer.run_epoch tr val_batches 0).
  { subst trace tr tr0. unfold run_main, main. rewrite Hrt.
    simpl (String.eqb _ _). cbv iota.
    cbn [perform_all perform fst snd app]. rewrite app_nil_r.
    unfold Trainer.analyze. reflexivity. }
  assert (Htrace : trace
    = [Trainer.hook_call "before_epoch" load_valid;
       Trainer.hook_call "before_epoch" extractor_initialize]
      ++ flat_map (fun b => [Trainer.batch_step 0 b;
                             Trainer.hook_call "after_batch" extractor_check_feature])
           (seq 0 val_batches)
      ++ [Trainer.hook_call "after_epoch" extractor_save_feature]).
  { rewrite Ht. unfold Trainer.run_epoch, Trainer.run_hooks.
    by rewrite Hb, Ha, He. }
  repeat split; try assumption; rewrite Htrace, !count_occ_app.
  - assert (Hz : forall start n,
      count_occ event_eq_dec
        (flat_map (fun b => [Trainer.batch_step 0 b;
                             Trainer.hook_call "after_batch" extractor_check_feature])
           (seq start n))
        (Trainer.hook_call "before_epoch" extractor_initialize) = 0%nat).
    { intros start n. revert start. induction n; intros start; [done |].
      simpl. by rewrite IHn. }
    by rewrite Hz.
  - rewrite count_check_feature. simpl. lia.
  - assert (Hz : forall start n,
      count_occ event_eq_dec
        (flat_map (fun b => [Trainer.batch_step 0 b;
                             Trainer.hook_call "after_batch" extractor_check_feature])
           (seq start n))
        (Trainer.hook_call "after_epoch" extractor_save_feature) = 0%nat).
    { intros start n. revert start. induction n; intros start; [done |].
      simpl. by rewrite IHn. }
    by rewrite Hz.
Qed.

Lemma analyze_hook_order_witness :
  snd (run_main (sample_cfg "cifar10" f1_0 "analyze" "epoch") sample_quantizer
         (Trainer.new 1 5 2 2))
  = [Trainer.hook_call "before_epoch" load_valid;
     Trainer.hook_call "before_epoch" extractor_initialize;
     Trainer.batch_step 0 0;
     Trainer.hook_call "after_batch" extractor_check_feature;
     Trainer.batch_step 0 1;
     Trainer.hook_call "after_batch" extractor_check_feature;
     Trainer.hook_call "after_epoch" extractor_save_feature].
Proof.
  pose proof (analyze_hook_order
                (sample_cfg "cifar10" f1_0 "analyze" "epoch") sample_quantizer
                1 5 2 2 eq_refl) as H.
  cbv zeta in H. destruct H as (_ & _ & _ & H & _). exact H.
Defined.

(** ** Model construction *)

Lemma map_result_Return {A B} (f : A -> result B) (l : list A) (l' : list B) :
  map_result f l = Return l' -> Forall2 (fun a b => f a = Return b) l l'.
Proof.
  revert l'. induction l as [| a l IH]; intros l' H; simpl in H.
  - apply Return_inj in H. subst. constructor.
  - bind_inv H. bind_inv H. apply Return_inj in H. subst.
    constructor; auto.
Qed.

Lemma map_result_succeeds {A B} (f : A -> result B) (l : list A) :
  forallb (fun a => succeeds (f a)) l = true ->
  exists l', map_result f l = Return l'.
Proof.
  induction l as [| a l IH]; simpl; intros H; [by eexists |].
  apply andb_true_iff in H as [Ha Hl].
  destruct (f a) as [b |]; [| discriminate].
  destruct (IH Hl) as [l' ->]. by eexists.
Qed.

(** *** Initialisation of single layers *)

Lemma init_conv_Return (c c' : QuantConv2d.t) :
  init_conv c = Return c' ->
  0 < fan c /\
  c' = QuantConv2d.mk (QuantConv2d.qnn c)
         (QuantConv2d.in_channels c) (QuantConv2d.out_channels c)
         (QuantConv2d.kernel_size c) (QuantConv2d.stride c)
         (QuantConv2d.padding c) (QuantConv2d.groups c)
         (QuantConv2d.nbits c) (QuantConv2d.symmetric c)
         (normal_ (of_int 0) (ssqrt (sdiv (lit 2 1) (of_int (fan c)))))
         (match QuantConv2d.bias c with
          | Some _ => Some zeros_
          | None => None
          end).
Proof.
  unfold init_conv, sqrt_2_over. fold (fan c). intros H.
  destruct (int_too_large (fan c)); [discriminate |].
  destruct (Z.eqb_spec (fan c) 0); [discriminate |].
  destruct (Z.ltb_spec (fan c) 0); [discriminate |].
  simpl in H. apply Return_inj in H. split; [lia | done].
Qed.

Lemma init_conv_ready (c : QuantConv2d.t) :
  conv_ready c = true -> succeeds (init_conv c) = true.
Proof.
  unfold conv_ready, init_conv, sqrt_2_over, int_too_large. fold (fan c).
  intros H. apply andb_true_iff in H as [Hpos Hfit].
  apply Z.ltb_lt in Hpos, Hfit.
  destruct (Z.leb_spec float_limit (Z.abs (fan c))); [lia |].
  destruct (Z.eqb_spec (fan c) 0); [lia |].
  destruct (Z.ltb_spec (fan c) 0); [lia | done].
Qed.

Lemma initialised_conv (c c' : QuantConv2d.t) :
  init_conv c = Return c' -> initialised (Conv c').
Proof.
  intros H. apply init_conv_Return in H as [Hpos ->].
  unfold initialised, fan. simpl. fold (fan c). split; [done |]. split.
  - exists (of_int 0), (ssqrt (sdiv (lit 2 1) (of_int (fan c)))).
    split; [done |]. split; [done |]. simpl. do 2 f_equal. lra.
  - destruct (QuantConv2d.bias c); auto.
Qed.

Lemma initialised_bn (b : BatchNorm2d.t) : initialised (BatchNorm (init_bn b)).
Proof. by split. Qed.

Lemma initialised_linear (l : QuantLinear.t) : initialised (Linear (init_linear l)).
Proof.
  split; [| done]. exists (of_int 0), (lit 1 100). by repeat split.
Qed.

Lemma initialised_layer (l l' : layer) :
  init_layer l = Return l' -> initialised l'.
Proof.
  destruct l; simpl; intros H.
  - bind_inv H. apply Return_inj in H. subst. by eapply initialised_conv.
  - apply Return_inj in H. by subst.
  - apply Return_inj in H. by subst.
  - apply Return_inj in H. subst. apply initialised_linear.
  - apply Return_inj in H. subst. apply initialised_bn.
Qed.

Lemma initialised_block (b b' : ConvBNReLU.t) :
  init_block b = Return b' -> Forall initialised (block_layers b').
Proof.
  unfold init_block. intros H. bind_inv H. apply Return_inj in H. subst b'.
  unfold block_layers. simpl. apply Forall_app. split.
  - destruct (ConvBNReLU.quant_act b); repeat constructor.
  - constructor; [by eapply initialised_conv |].
    constructor; [apply initialised_bn |].
    constructor; [exact I | constructor].
Qed.

Lemma initialised_submodule (m m' : submodule) :
  init_submodule m = Return m' -> Forall initialised (submodule_layers m').
Proof.
  destruct m; simpl; intros H; bind_inv H; apply Return_inj in H; subst; simpl.
  - by eapply initialised_block.
  - repeat constructor. by eapply initialised_layer.
Qed.

Lemma initialised_feature (m m' : feature) :
  init_feature m = Return m' -> Forall initialised (feature_layers m').
Proof.
  destruct m as [b | r]; simpl; intros H; bind_inv H; apply Return_inj in H;
    subst; simpl.
  - by eapply initialised_block.
  - unfold init_residual in Ha. bind_inv Ha. apply Return_inj in Ha. subst a.
    unfold residual_layers. simpl.
    apply map_result_Return in Ha0.
    induction Ha0 as [| x y l l' Hxy _ IH]; simpl; [constructor |].
    apply Forall_app. split; [by eapply initialised_submodule | exact IH].
Qed.

Lemma initialised_features (l l' : list feature) :
  map_result init_feature l = Return l' ->
  Forall initialised (flat_map feature_layers l').
Proof.
  intros H. apply map_result_Return in H.
  induction H as [| x y l l' Hxy _ IH]; simpl; [constructor |].
  apply Forall_app. split; [by eapply initialised_feature | exact IH].
Qed.

Lemma initialised_layers (l l' : list layer) :
  map_result init_layer l = Return l' -> Forall initialised l'.
Proof.
  intros H. apply map_result_Return in H.
  induction H as [| x y l l' Hxy _ IH]; constructor;
    [by eapply initialised_layer | exact IH].
Qed.

(** *** Construction under the module state that [set_model] installs *)

Section Construction.

Variable cfg : config.
Variable q : module_ref.

Local Abbreviation g := (Globals (Some q) (Some (qcfg_of cfg))).

Lemma qcfg_get_bitw : qcfg_get g "bitw" = Return (bitw cfg).
Proof. reflexivity. Qed.

Lemma qcfg_get_bita : qcfg_get g "bita" = Return (bita cfg).
Proof. reflexivity. Qed.

Lemma qcfg_get_first_conv_bitw :
  qcfg_get g "first_conv_bitw" = Return (first_conv_bitw cfg).
Proof. reflexivity. Qed.

Lemma qcfg_get_last_fc_bitw :
  qcfg_get g "last_fc_bitw" = Return (last_fc_bitw cfg).
Proof. reflexivity. Qed.

Lemma qcfg_get_symmetric : qcfg_get g "symmetric" = Return (symmetric cfg).
Proof. reflexivity. Qed.

Lemma conv2d_Return (i o k s p gr : Z) (b : bool) (bw : value) :
  exists c, conv2d g i o k s p gr b bw = Return c /\
            QuantConv2d.kernel_size c = (k, k) /\
            QuantConv2d.out_channels c = o.
Proof.
  unfold conv2d. cbn [global_qnn g_qnn mbind result_bind].
  destruct bw; cbn [is_None];
    rewrite ?qcfg_get_bitw, qcfg_get_symmetric;
    cbn [mbind result_bind]; eexists; repeat split.
Qed.

Lemma relu6_Return (inplace : bool) : exists a, relu6 g inplace = Return a.
Proof.
  unfold relu6. cbn [global_qnn g_qnn mbind result_bind].
  rewrite qcfg_get_bita. by eexists.
Qed.

Lemma identity_Return (bw : value) : exists a, identity g bw = Return a.
Proof.
  unfold identity. cbn [global_qnn g_qnn mbind result_bind].
  destruct bw; cbn [is_None];
    rewrite ?qcfg_get_bitw, qcfg_get_symmetric; by eexists.
Qed.

Lemma ConvBNReLU_init_Return (i o k s gr : Z) (bw : value) (qi : bool) :
  exists b, ConvBNReLU.init g i o k s gr bw qi = Return b /\
            block_ready b = ((0 <? k * k * o) && (k * k * o <? float_limit)).
Proof.
  unfold ConvBNReLU.init.
  destruct (conv2d_Return i o k s
              (if k >? 1 then (k - 1) / 2 else 0) gr false bw)
    as (c & Hc & Hk & Ho).
  destruct (relu6_Return false) as [a Ha].
  destruct (identity_Return bw) as [idn Hi].
  destruct qi; cbn [negb]; rewrite ?Hi; cbn [mbind result_bind];
    rewrite Hc; cbn [mbind result_bind]; rewrite Ha; cbn [mbind result_bind];
    eexists; (split; [reflexivity |]);
    unfold block_ready, conv_ready, fan; cbn [ConvBNReLU.conv];
    by rewrite Hk, Ho.
Qed.

Lemma InvertedResidual_init_Return (inp oup s t : Z) (qi : bool) :
  s = 1 \/ s = 2 ->
  0 < inp -> 54 * inp < float_limit ->
  0 < oup -> 54 * oup < float_limit ->
  0 < t <= 6 ->
  exists r, InvertedResidual.init g inp oup s t qi = Return r /\
            feature_ready (Residual r) = true.
Proof.
  intros Hs Hinp Finp Houp Foup Ht. unfold InvertedResidual.init.
  assert (Hst : negb ((s =? 1) || (s =? 2)) = false).
  { destruct Hs; subst; reflexivity. }
  rewrite Hst.
  destruct (ConvBNReLU_init_Return inp (inp * t) 1 1 1 VNone qi)
    as (pw & Hpw & Rpw).
  destruct (ConvBNReLU_init_Return (inp * t) (inp * t) 3 s (inp * t) VNone true)
    as (dw & Hdw & Rdw).
  destruct (conv2d_Return (inp * t) oup 1 1 0 1 false VNone)
    as (pwl & Hpwl & Kpwl & Opwl).
  assert (Hfan : 0 < inp * t) by nia.
  assert (Ffan : inp * t <= 6 * inp) by nia.
  assert (Rpwl : conv_ready pwl = true).
  { unfold conv_ready, fan. rewrite Kpwl, Opwl. cbn [fst snd].
    apply andb_true_iff. split; apply Z.ltb_lt; lia. }
  assert (Rpw' : block_ready pw = true).
  { rewrite Rpw. apply andb_true_iff. split; apply Z.ltb_lt; lia. }
  assert (Rdw' : block_ready dw = true).
  { rewrite Rdw. apply andb_true_iff. split; apply Z.ltb_lt; lia. }
  destruct (negb (t =? 1)); rewrite ?Hpw; cbn [mbind result_bind];
    rewrite Hdw; cbn [mbind result_bind]; rewrite Hpwl; cbn [mbind result_bind];
    eexists; (split; [reflexivity |]);
    cbn [feature_ready InvertedResidual.conv app forallb submodule_ready layer_ready];
    by rewrite ?Rpw', Rdw', Rpwl.
Qed.

Lemma repeat_block_Return (out s t : Z) (qi : bool) (n : nat)
    (inp : Z) (feats : list feature) :
  s = 1 \/ s = 2 ->
  0 < inp -> 54 * inp < float_limit ->
  0 < out -> 54 * out < float_limit ->
  0 < t <= 6 ->
  forallb feature_ready feats = true ->
  exists inp' feats',
    repeat_block g out s t qi n (inp, feats) = Return (inp', feats') /\
    0 < inp' /\ 54 * inp' < float_limit /\
    forallb feature_ready feats' = true.
Proof.
  intros Hs Hinp Finp Hout Fout Ht. unfold repeat_block.
  generalize (seq 0 n) as idx. intros idx. revert inp feats Hinp Finp.
  induction idx as [| i idx IH]; intros inp feats Hinp Finp Hf; cbn [fold_result].
  - by exists inp, feats.
  - assert (Hstride : (if (i =? 0)%nat then s else 1) = 1 \/
                      (if (i =? 0)%nat then s else 1) = 2).
    { destruct (i =? 0)%nat; auto. }
    destruct (InvertedResidual_init_Return inp out _ t qi
                Hstride Hinp Finp Hout Fout Ht) as (r & Hr & Rr).
    rewrite Hr. cbn [mbind result_bind].
    apply IH; [exact Hout | exact Fout |].
    rewrite forallb_app, Hf. cbn [forallb]. by rewrite Rr.
Qed.

Lemma stages_Return (w : float) (rows : list (Z * Z * nat * Z * bool))
    (inp : Z) (feats : list feature) :
  forallb (row_ok w) rows = true ->
  0 < inp -> 54 * inp < float_limit ->
  forallb feature_ready feats = true ->
  exists inp' feats',
    fold_result
      (fun st '(t, c, n, s, qi) =>
         output_channel ← int_mul c w;
         repeat_block g output_channel s t qi n st)
      rows (inp, feats) = Return (inp', feats') /\
    0 < inp' /\ 54 * inp' < float_limit /\
    forallb feature_ready feats' = true.
Proof.
  revert inp feats.
  induction rows as [| [[[[t c] n] s] qi] rows IH];
    intros inp feats Hrows Hinp Finp Hf.
  - by exists inp, feats.
  - cbn [forallb] in Hrows. apply andb_true_iff in Hrows as [Hrow Hrows].
    unfold row_ok in Hrow.
    apply andb_true_iff in Hrow as [Hrow Hs].
    apply andb_true_iff in Hrow as [Hrow Ht6].
    apply andb_true_iff in Hrow as [Hrow Ht].
    apply andb_true_iff in Hrow as [Hc Fc].
    apply Z.ltb_lt in Ht. apply Z.leb_le in Ht6.
    assert (Hs' : s = 1 \/ s = 2).
    { apply orb_true_iff in Hs as [Hs | Hs]; apply Z.eqb_eq in Hs; auto. }
    unfold scaled_ok in Hc. unfold scaled_fits in Fc.
    destruct (int_mul c w) as [k |] eqn:Hk; [| discriminate].
    apply Z.ltb_lt in Hc, Fc.
    cbn [fold_result]. rewrite Hk. cbn [mbind result_bind].
    destruct (repeat_block_Return k s t qi n inp feats
                Hs' Hinp Finp Hc Fc (conj Ht Ht6) Hf)
      as (inp1 & feats1 & Hrb & Hinp1 & Finp1 & Hf1).
    rewrite Hrb. cbn [mbind result_bind]. by apply IH.
Qed.

Lemma last_fc_Return (i o : Z) :
  exists fc, last_fc g i o = Return fc /\ QuantLinear.out_features fc = o.
Proof.
  unfold last_fc. cbn [global_qnn g_qnn mbind result_bind].
  rewrite qcfg_get_last_fc_bitw, qcfg_get_symmetric. by eexists.
Qed.

Lemma init_features_Return (feats : list feature) :
  forallb feature_ready feats = true ->
  exists feats', map_result init_feature feats = Return feats'.
Proof.
  intros H. apply map_result_succeeds.
  rewrite forallb_forall in *. intros f Hin. specialize (H f Hin).
  assert (Hblock : forall b, block_ready b = true -> succeeds (init_block b) = true).
  { intros b Hb. unfold init_block.
    apply init_conv_ready in Hb. by destruct (init_conv (ConvBNReLU.conv b)). }
  destruct f as [b | r]; simpl in *.
  - specialize (Hblock b H). by destruct (init_block b).
  - unfold init_residual.
    destruct (map_result_succeeds init_submodule (InvertedResidual.conv r))
      as [l' ->]; [| done].
    rewrite forallb_forall in *. intros m Hm. specialize (H m Hm).
    destruct m as [b | l]; simpl in *.
    + specialize (Hblock b H). by destruct (init_block b).
    + destruct l; simpl in *; try done.
      apply init_conv_ready in H. by destruct (init_conv m).
Qed.

End Construction.

Lemma width_ok_inv (w : float) :
  width_ok w = true -> width_fits w = true ->
  (exists c0, int_mul 32 w = Return c0 /\ 0 < c0 /\ 54 * c0 < float_limit) /\
  (exists cl, int_mul 1280 (fmax f1_0 w) = Return cl /\
              0 < cl /\ 54 * cl < float_limit) /\
  forallb (row_ok w) MobileNetV2.inverted_residual_setting = true /\
  forallb (row_ok w)
    (map (fun '(t, c, n, s) => (t, c, n, s, true))
       MobileNetV2_CIFAR.inverted_residual_setting) = true.
Proof.
  unfold width_ok, width_fits, channel_counts. intros H F.
  apply andb_true_iff in H as [H Hlast]. rewrite forallb_forall in H.
  apply andb_true_iff in F as [F Flast]. rewrite forallb_forall in F.
  assert (Hc : forall c, In c [32; 16; 24; 32; 64; 96; 160; 320] ->
                         scaled_ok w c = true) by exact H.
  assert (Fc : forall c, In c [32; 16; 24; 32; 64; 96; 160; 320] ->
                         scaled_fits w c = true) by exact F.
  split; [| split; [| split]].
  - assert (H32 : scaled_ok w 32 = true) by (apply Hc; simpl; tauto).
    assert (F32 : scaled_fits w 32 = true) by (apply Fc; simpl; tauto).
    unfold scaled_ok in H32. unfold scaled_fits in F32.
    destruct (int_mul 32 w) as [c0 |]; [| discriminate].
    apply Z.ltb_lt in H32, F32. by exists c0.
  - unfold scaled_ok in Hlast. unfold scaled_fits in Flast.
    destruct (int_mul 1280 (fmax f1_0 w)) as [cl |]; [| discriminate].
    apply Z.ltb_lt in Hlast, Flast. by exists cl.
  - cbn [forallb row_ok MobileNetV2.inverted_residual_setting].
    rewrite !Hc, !Fc by (simpl; tauto). reflexivity.
  - cbn [forallb map row_ok MobileNetV2_CIFAR.inverted_residual_setting].
    rewrite !Hc, !Fc by (simpl; tauto). reflexivity.
Qed.

Lemma MobileNetV2_init_Return (cfg : config) (q : module_ref)
    (num_classes : Z) (w : float) :
  width_ok w = true -> width_fits w = true ->
  exists m fc,
    MobileNetV2.init (Globals (Some q) (Some (qcfg_of cfg))) num_classes w = Return m /\
    MobileNetV2.classifier m = [Linear fc] /\
    QuantLinear.out_features fc = num_classes.
Proof.
  intros Hw Fw.
  destruct (width_ok_inv w Hw Fw)
    as ((c0 & Hc0 & H32 & F32) & (cl & Hcl & Hlast & Flast) & Hrows & _).
  unfold MobileNetV2.init. rewrite Hc0, Hcl.
  cbn [mbind result_bind]. rewrite qcfg_get_first_conv_bitw.
  cbn [mbind result_bind].
  destruct (ConvBNReLU_init_Return cfg q 3 c0 3 2 1 (first_conv_bitw cfg) true)
    as (first & Hfirst & Rfirst).
  rewrite Hfirst. cbn [mbind result_bind].
  assert (Rf : forallb feature_ready [Plain first] = true).
  { cbn [forallb feature_ready]. rewrite Rfirst, andb_true_r.
    apply andb_true_iff. split; apply Z.ltb_lt; lia. }
  destruct (stages_Return cfg q w _ c0 [Plain first] Hrows H32 F32 Rf)
    as (inp & feats & Hst & Hinp & Finp & Rfeats).
  rewrite Hst. cbn [mbind result_bind].
  destruct (ConvBNReLU_init_Return cfg q inp cl 1 1 1 VNone false)
    as (last & Hl & Rl).
  rewrite Hl. cbn [mbind result_bind].
  destruct (last_fc_Return cfg q cl num_classes) as (fc & Hfc & Ofc).
  rewrite Hfc. cbn [mbind result_bind].
  destruct (init_features_Return (feats ++ [Plain last])) as [feats' Hfeats].
  { assert (Rl' : block_ready last = true).
    { rewrite Rl. apply andb_true_iff. split; apply Z.ltb_lt; lia. }
    rewrite forallb_app, Rfeats. cbn [forallb feature_ready]. by rewrite Rl'. }
  rewrite Hfeats. cbn [mbind result_bind map_result init_layer].
  eexists _, (init_linear fc). split; [reflexivity |]. by split.
Qed.

Lemma MobileNetV2_CIFAR_init_Return (cfg : config) (q : module_ref)
    (num_classes : Z) (w : float) :
  width_ok w = true -> width_fits w = true ->
  exists m fc,
    MobileNetV2_CIFAR.init (Globals (Some q) (Some (qcfg_of cfg))) num_classes w
      = Return m /\
    MobileNetV2_CIFAR.classifier m = [Linear fc] /\
    QuantLinear.out_features fc = num_classes.
Proof.
  intros Hw Fw.
  destruct (width_ok_inv w Hw Fw)
    as ((c0 & Hc0 & H32 & F32) & (cl & Hcl & Hlast & Flast) & _ & Hrows).
  unfold MobileNetV2_CIFAR.init. rewrite Hc0, Hcl.
  cbn [mbind result_bind]. rewrite qcfg_get_first_conv_bitw.
  cbn [mbind result_bind].
  destruct (ConvBNReLU_init_Return cfg q 3 c0 3 1 1 (first_conv_bitw cfg) true)
    as (first & Hfirst & Rfirst).
  rewrite Hfirst. cbn [mbind result_bind].
  assert (Rf : forallb feature_ready [Plain first] = true).
  { cbn [forallb feature_ready]. rewrite Rfirst, andb_true_r.
    apply andb_true_iff. split; apply Z.ltb_lt; lia. }
  destruct (stages_Return cfg q w _ c0 [Plain first] Hrows H32 F32 Rf)
    as (inp & feats & Hst & Hinp & Finp & Rfeats).
  cbn [map MobileNetV2_CIFAR.inverted_residual_setting fold_result] in Hst.
  cbn [MobileNetV2_CIFAR.inverted_residual_setting fold_result].
  rewrite Hst. cbn [mbind result_bind].
  destruct (ConvBNReLU_init_Return cfg q inp cl 1 1 1 VNone true)
    as (last & Hl & Rl).
  rewrite Hl. cbn [mbind result_bind].
  destruct (last_fc_Return cfg q cl num_classes) as (fc & Hfc & Ofc).
  rewrite Hfc. cbn [mbind result_bind].
  destruct (init_features_Return (feats ++ [Plain last])) as [feats' Hfeats].
  { assert (Rl' : block_ready last = true).
    { rewrite Rl. apply andb_true_iff. split; apply Z.ltb_lt; lia. }
    rewrite forallb_app, Rfeats. cbn [forallb feature_ready]. by rewrite Rl'. }
  rewrite Hfeats. cbn [mbind result_bind map_result init_layer].
  eexists _, (init_linear fc). split; [reflexivity |]. by split.
Qed.

(** C5 (as amended). For every recognized dataset name and every width
    multiplier whose scaled channel counts [k] are positive integers small
    enough for [54 * k] to fit a float (so that no
    [kernel_size[0] * kernel_size[1] * out_channels] overflows in [2. / n]),
    [set_model] returns a model whose final classifier layer has as many
    outputs as the dataset has classes (10, 100, 1000), together with the
    image size 32 for the CIFAR datasets and 224 for imagenet.  The
    constructors of the quantized layers are external and taken to accept
    the sizes they are given. *)
Theorem set_model_recognized (cfg : config) (q : module_ref) (g : globals)
    (ds : string) (classes size : Z) :
  width_ok (width_mult cfg) = true ->
  width_fits (width_mult cfg) = true ->
  (ds, classes, size) ∈ dataset_table ->
  dataset cfg = ds ->
  exists m, snd (set_model cfg q g) = Return (m, size) /\
            output_dim m = Some classes.
Proof.
  intros Hw Fw Hin Hds. unfold dataset_table in Hin.
  rewrite !elem_of_cons, elem_of_nil in Hin.
  unfold set_model. cbn [snd g_qnn g_qcfg]. rewrite Hds.
  destruct Hin as [E | [E | [E | []]]]; injection E as -> -> ->.
  - destruct (MobileNetV2_CIFAR_init_Return cfg q 10 _ Hw Fw) as (m & fc & Hm & Hc & Ho).
    change (str_in "cifar10" ["cifar10"; "cifar100"]) with true. cbv iota.
    change (int_of_str (drop_chars 5 "cifar10")) with (Return 10).
    cbn [mbind result_bind]. rewrite Hm. cbn [mbind result_bind].
    eexists. split; [reflexivity |].
    unfold output_dim. cbn [model_classifier]. rewrite Hc. simpl. by rewrite Ho.
  - destruct (MobileNetV2_CIFAR_init_Return cfg q 100 _ Hw Fw) as (m & fc & Hm & Hc & Ho).
    change (str_in "cifar100" ["cifar10"; "cifar100"]) with true. cbv iota.
    change (int_of_str (drop_chars 5 "cifar100")) with (Return 100).
    cbn [mbind result_bind]. rewrite Hm. cbn [mbind result_bind].
    eexists. split; [reflexivity |].
    unfold output_dim. cbn [model_classifier]. rewrite Hc. simpl. by rewrite Ho.
  - destruct (MobileNetV2_init_Return cfg q 1000 _ Hw Fw) as (m & fc & Hm & Hc & Ho).
    change (str_in "imagenet" ["cifar10"; "cifar100"]) with false.
    change (str_in "imagenet" ["imagenet"]) with true. cbv iota.
    rewrite Hm. cbn [mbind result_bind].
    eexists. split; [reflexivity |].
    unfold output_dim. cbn [model_classifier]. rewrite Hc. simpl. by rewrite Ho.
Qed.

Lemma set_model_recognized_witness :
  exists m,
    snd (set_model (sample_cfg "imagenet" f0_5 "train" "epoch") "lsq.qnn" fresh_globals)
      = Return (m, 224) /\
    output_dim m = Some 1000.
Proof.
  apply (set_model_recognized (sample_cfg "imagenet" f0_5 "train" "epoch")
           "lsq.qnn" fresh_globals "imagenet" 1000 224).
  - reflexivity.
  - vm_compute. reflexivity.
  - unfold dataset_table. rewrite !elem_of_cons. tauto.
  - reflexivity.
Defined.

(** C5 as stated fails: for the recognized name cifar10 and width
    multiplier 0.0 every scaled channel count is 0 and [set_model] returns
    no model; and at width multiplier 1e305 every scaled channel count is
    positive, yet no model is returned either. *)
Lemma set_model_recognized_counterexample :
  let cfg := sample_cfg "cifar10" f0_0 "train" "epoch" in
  let big := sample_cfg "cifar10" (decimal (10 ^ 305) 1) "train" "epoch" in
  dataset cfg ∈ recognized /\
  ~ (exists m size, snd (set_model cfg "lsq.qnn" fresh_globals) = Return (m, size)) /\
  width_ok (width_mult big) = true /\
  ~ (exists m size, snd (set_model big "lsq.qnn" fresh_globals) = Return (m, size)).
Proof.
  cbv zeta. split; [| split; [| split]].
  - unfold recognized. simpl. rewrite !elem_of_cons. tauto.
  - intros (m & size & Hm). apply (f_equal succeeds) in Hm.
    vm_compute in Hm. discriminate.
  - vm_compute. reflexivity.
  - intros (m & size & Hm). apply (f_equal succeeds) in Hm.
    vm_compute in Hm. discriminate.
Qed.

(** ** Weight initialisation *)

Lemma MobileNetV2_init_initialised (g : globals) (num_classes : Z) (w : float)
    (m : MobileNetV2.t) :
  MobileNetV2.init g num_classes w = Return m ->
  Forall initialised
    (flat_map feature_layers (MobileNetV2.features m) ++ MobileNetV2.classifier m).
Proof.
  unfold MobileNetV2.init. intros H.
  do 5 bind_inv H. destruct a3 as [input_channel features].
  do 4 bind_inv H. apply Return_inj in H. subst m. cbn [MobileNetV2.features
    MobileNetV2.classifier].
  apply Forall_app. split;
    [by eapply initialised_features | by eapply initialised_layers].
Qed.

Lemma MobileNetV2_CIFAR_init_initialised (g : globals) (num_classes : Z)
    (w : float) (m : MobileNetV2_CIFAR.t) :
  MobileNetV2_CIFAR.init g num_classes w = Return m ->
  Forall initialised
    (flat_map feature_layers (MobileNetV2_CIFAR.features m)
     ++ MobileNetV2_CIFAR.classifier m).
Proof.
  unfold MobileNetV2_CIFAR.init. intros H.
  do 5 bind_inv H. destruct a3 as [input_channel features].
  do 4 bind_inv H. apply Return_inj in H. subst m. cbn [MobileNetV2_CIFAR.features
    MobileNetV2_CIFAR.classifier].
  apply Forall_app. split;
    [by eapply initialised_features | by eapply initialised_layers].
Qed.

Lemma set_model_initialised (cfg : config) (q : module_ref) (g : globals)
    (m : model) (size : Z) :
  snd (set_model cfg q g) = Return (m, size) ->
  Forall initialised (model_layers m).
Proof.
  unfold set_model. cbn [snd]. intros H.
  destruct (str_in (dataset cfg) ["cifar10"; "cifar100"]).
  - do 2 bind_inv H. apply Return_inj in H. injection H as <- _.
    by eapply MobileNetV2_CIFAR_init_initialised.
  - destruct (str_in (dataset cfg) ["imagenet"]); [| discriminate].
    bind_inv H. apply Return_inj in H. injection H as <- _.
    by eapply MobileNetV2_init_initialised.
Qed.

Lemma variance_of_sqrt (n : Z) :
  0 < n -> (sqrt (2 / IZR n) * sqrt (2 / IZR n) = 2 / IZR n)%R.
Proof.
  intros Hn. apply sqrt_def.
  apply Rlt_le, Rdiv_lt_0_compat; [lra | by apply IZR_lt].
Qed.

(** C8 (as amended). In every model that [set_model] returns, each
    quantized convolution has its weight drawn from the normal
    distribution with mean 0 and standard deviation
    sqrt(2 / (kernel_area * out_channels)), that is variance
    2 / (kernel_area * out_channels), and its bias, if any, set to zero;
    each batch-norm layer has weight 1 and bias 0; each quantized linear
    layer has its weight drawn with mean 0 and standard deviation 0.01,
    that is variance 0.0001, and bias 0.  The initialisation is
    deterministic given a fixed random seed upstream: the draws are made
    layer by layer in the order of the modules, so two calls that start
    with the random generator in the same state yield the same parameter
    values and leave the generator in the same state, each weight of a
    convolution or linear layer being one draw of the sampler with the
    parameters above. *)
Theorem weight_initialisation (cfg : config) (q : module_ref) (g : globals)
    (m : model) (size : Z) :
  snd (set_model cfg q g) = Return (m, size) ->
  Forall initialised (model_layers m) /\
  (forall c, In (Conv c) (model_layers m) ->
     exists sigma : R,
       is_normal (QuantConv2d.weight c) 0 sigma /\
       sigma = sqrt (2 / IZR (fan c)) /\
       (sigma * sigma = 2 / IZR (fan c))%R /\
       (QuantConv2d.bias c = None \/ QuantConv2d.bias c = Some zeros_)) /\
  (forall b, In (BatchNorm b) (model_layers m) ->
     BatchNorm2d.weight b = ones_ /\ BatchNorm2d.bias b = zeros_) /\
  (forall l, In (Linear l) (model_layers m) ->
     exists sigma : R,
       is_normal (QuantLinear.weight l) 0 sigma /\
       sigma = (1 / 100)%R /\
       (sigma * sigma = 1 / 10000)%R /\
       QuantLinear.bias l = zeros_) /\
  (forall (generator tensor_data : Type)
          (normal : generator -> layer -> slot -> scalar -> scalar ->
                    tensor_data * generator)
          (constant : layer -> slot -> Z -> tensor_data)
          (constructed : generator -> list layer -> generator)
          (g1 g2 : globals) (s1 s2 : generator),
     s1 = s2 ->
     drawn_parameters normal constant constructed cfg q g1 s1
     = drawn_parameters normal constant constructed cfg q g2 s2 /\
     drawn_parameters normal constant constructed cfg q g1 s1
     = Return (fill_layers normal constant
                 (constructed s1 (map strip_layer (model_layers m)))
                 (model_layers m)) /\
     (forall s c, In (Conv c) (model_layers m) ->
        exists mu sigma,
          real_of mu = 0%R /\ real_of sigma = sqrt (2 / IZR (fan c)) /\
          fill normal constant s (Conv c) Weight (Some (QuantConv2d.weight c))
          = (Some (fst (normal s (Conv c) Weight mu sigma)),
             snd (normal s (Conv c) Weight mu sigma))) /\
     (forall s l, In (Linear l) (model_layers m) ->
        exists mu sigma,
          real_of mu = 0%R /\ real_of sigma = (1 / 100)%R /\
          fill normal constant s (Linear l) Weight (Some (QuantLinear.weight l))
          = (Some (fst (normal s (Linear l) Weight mu sigma)),
             snd (normal s (Linear l) Weight mu sigma)))).
Proof.
  intros H. pose proof (set_model_initialised cfg q g m size H) as Hall.
  split; [exact Hall |]. rewrite List.Forall_forall in Hall.
  split; [| split; [| split]].
  - intros c Hin. destruct (Hall _ Hin) as (Hpos & Hn & Hb).
    eexists. split; [exact Hn |]. split; [reflexivity |].
    split; [by apply variance_of_sqrt | exact Hb].
  - intros b Hin. exact (Hall _ Hin).
  - intros l Hin. destruct (Hall _ Hin) as (Hn & Hb).
    eexists. split; [exact Hn |]. split; [reflexivity |].
    split; [lra | exact Hb].
  - intros generator tensor_data normal constant constructed g1 g2 s1 s2 <-.
    assert (Hg : forall g', snd (set_model cfg q g') = Return (m, size))
      by (intros g'; exact H).
    unfold drawn_parameters. rewrite (Hg g1), (Hg g2).
    split; [reflexivity |]. split; [reflexivity |]. split.
    + intros s c Hin. destruct (Hall _ Hin) as (_ & (mu & sigma & E & Hmu & Hsg) & _).
      exists mu, sigma. split; [exact Hmu |]. split; [exact Hsg |].
      rewrite E. cbn [fill]. by destruct (normal s (Conv c) Weight mu sigma).
    + intros s l Hin. destruct (Hall _ Hin) as ((mu & sigma & E & Hmu & Hsg) & _).
      exists mu, sigma. split; [exact Hmu |]. split; [exact Hsg |].
      rewrite E. cbn [fill]. by destruct (normal s (Linear l) Weight mu sigma).
Qed.

Lemma sample_model_layers :
  exists m,
    snd (set_model (sample_cfg "cifar10" f1_0 "train" "epoch") "lsq.qnn" fresh_globals)
      = Return (m, 32) /\
    In (Conv sample_stem_conv) (model_layers m) /\
    In (Linear sample_fc) (model_layers m).
Proof.
  destruct (snd (set_model (sample_cfg "cifar10" f1_0 "train" "epoch")
                   "lsq.qnn" fresh_globals)) as [[m size] | e] eqn:E;
    vm_compute in E; [| discriminate].
  injection E as <- <-. eexists. split; [reflexivity |]. split.
  - left. reflexivity.
  - apply in_or_app. right. left. reflexivity.
Qed.

Lemma weight_initialisation_witness :
  exists m,
    snd (set_model (sample_cfg "cifar10" f1_0 "train" "epoch") "lsq.qnn" fresh_globals)
      = Return (m, 32) /\
    Forall initialised (model_layers m).
Proof.
  destruct sample_model_layers as (m & Hm & _).
  exists m. split; [exact Hm |].
  exact (proj1 (weight_initialisation _ _ _ _ _ Hm)).
Defined.

(** C8 as stated fails under either reading of "N(0, v)".  Read as mean
    and variance, the linear layer of the CIFAR-10 network does not have
    variance 0.01 (its standard deviation is 0.01); read as mean and
    standard deviation, the first convolution does not have deviation
    2 / (kernel_area * out_channels) = 2/288 (that is its variance). *)
Lemma weight_initialisation_counterexample :
  exists m,
    snd (set_model (sample_cfg "cifar10" f1_0 "train" "epoch") "lsq.qnn" fresh_globals)
      = Return (m, 32) /\
    In (Linear sample_fc) (model_layers m) /\
    In (Conv sample_stem_conv) (model_layers m) /\
    (forall sigma : R, is_normal (QuantLinear.weight sample_fc) 0 sigma ->
                       (sigma * sigma <> 1 / 100)%R) /\
    (forall sigma : R, is_normal (QuantConv2d.weight sample_stem_conv) 0 sigma ->
                       sigma <> (2 / IZR (fan sample_stem_conv))%R).
Proof.
  destruct sample_model_layers as (m & Hm & Hconv & Hfc).
  exists m. repeat split; try assumption.
  - intros sigma (mu & s & E & _ & Hs). injection E as <- <-.
    simpl in Hs. subst sigma. lra.
  - intros sigma (mu & s & E & _ & Hs). injection E as <- <-.
    change (fan sample_stem_conv) with 288.
    simpl in Hs. intros Heq.
    assert (Hsq : (sigma * sigma = 2 / 1 / 288)%R).
    { rewrite <- Hs. apply sqrt_def. lra. }
    rewrite Heq in Hsq. lra.
Qed.

(** * Further properties of the sources *)

(** ** Layer factories, from any module state *)

Lemma global_qnn_inv (g : globals) (q : module_ref) :
  global_qnn g = Return q -> g_qnn g = Some q.
Proof. unfold global_qnn. destruct (g_qnn g); [congruence | discriminate]. Qed.

Lemma conv2d_inv (g : globals) (i o k s p gr : Z) (b : bool) (bw : value)
    (c : QuantConv2d.t) :
  conv2d g i o k s p gr b bw = Return c ->
  g_qnn g = Some (QuantConv2d.qnn c) /\
  QuantConv2d.in_channels c = i /\
  QuantConv2d.out_channels c = o /\
  QuantConv2d.kernel_size c = (k, k) /\
  QuantConv2d.stride c = s /\
  QuantConv2d.padding c = p /\
  QuantConv2d.groups c = gr /\
  QuantConv2d.weight c = by_constructor /\
  QuantConv2d.bias c = (if b then Some by_constructor else None) /\
  (if is_None bw then qcfg_get g "bitw" else Return bw)
    = Return (QuantConv2d.nbits c) /\
  qcfg_get g "symmetric" = Return (QuantConv2d.symmetric c).
Proof.
  unfold conv2d. intros H. do 3 bind_inv H. apply Return_inj in H. subst c.
  apply global_qnn_inv in Ha. simpl. by repeat split.
Qed.

Lemma relu6_inv (g : globals) (inplace : bool) (a : QuantReLU6.t) :
  relu6 g inplace = Return a ->
  g_qnn g = Some (QuantReLU6.qnn a) /\
  QuantReLU6.inplace a = inplace /\
  qcfg_get g "bita" = Return (QuantReLU6.nbits a).
Proof.
  unfold relu6. intros H. do 2 bind_inv H. apply Return_inj in H. subst a.
  apply global_qnn_inv in Ha. simpl. by repeat split.
Qed.

Lemma identity_inv (g : globals) (bw : value) (a : QuantIdentity.t) :
  identity g bw = Return a ->
  g_qnn g = Some (QuantIdentity.qnn a) /\
  (if is_None bw then qcfg_get g "bitw" else Return bw)
    = Return (QuantIdentity.nbits a) /\
  qcfg_get g "symmetric" = Return (QuantIdentity.symmetric a).
Proof.
  unfold identity. intros H. do 3 bind_inv H. apply Return_inj in H. subst a.
  apply global_qnn_inv in Ha. simpl. by repeat split.
Qed.

Lemma ConvBNReLU_init_inv (g : globals) (i o k s gr : Z) (bw : value)
    (qi : bool) (b : ConvBNReLU.t) :
  ConvBNReLU.init g i o k s gr bw qi = Return b ->
  conv2d g i o k s (if k >? 1 then (k - 1) / 2 else 0) gr false bw
    = Return (ConvBNReLU.conv b) /\
  ConvBNReLU.bn b = BatchNorm2d.new o /\
  relu6 g false = Return (ConvBNReLU.act b) /\
  (if qi then ConvBNReLU.quant_act b = None
   else exists a, ConvBNReLU.quant_act b = Some a /\ identity g bw = Return a).
Proof.
  intros H. pose proof (ConvBNReLU_init_quant_act _ _ _ _ _ _ _ _ _ H) as Hq.
  split; [| split; [| split; [| exact Hq]]];
    unfold ConvBNReLU.init in H; do 3 bind_inv H;
    apply Return_inj in H; by subst b.
Qed.

Lemma InvertedResidual_init_struct (g : globals) (inp oup s t : Z) (qi : bool)
    (r : InvertedResidual.t) :
  InvertedResidual.init g inp oup s t qi = Return r ->
  exists pws dw pwl,
    InvertedResidual.conv r
    = map Block pws
      ++ [Block dw; Layer (Conv pwl); Layer (BatchNorm (BatchNorm2d.new oup))] /\
    (if t =? 1 then pws = []
     else exists pw, pws = [pw] /\
            ConvBNReLU.init g inp (inp * t) 1 1 1 VNone qi = Return pw) /\
    ConvBNReLU.init g (inp * t) (inp * t) 3 s (inp * t) VNone true = Return dw /\
    conv2d g (inp * t) oup 1 1 0 1 false VNone = Return pwl.
Proof.
  unfold InvertedResidual.init. intros H.
  destruct (negb ((s =? 1) || (s =? 2))); [discriminate |].
  do 3 bind_inv H. apply Return_inj in H. subst r. cbn [InvertedResidual.conv].
  destruct (t =? 1); cbn [negb] in Ha.
  - apply Return_inj in Ha. subst a. by exists [], a0, a1.
  - bind_inv Ha. apply Return_inj in Ha. subst a.
    exists [a2], a0, a1. repeat split; eauto.
Qed.

(** X1. The layer factories and the block constructors read the module
    state: when [qnn] has not been bound (no [set_model] has run), every one
    of them raises [NameError] for [qnn], whatever its arguments - except
    that [InvertedResidual] checks its stride first. *)
Theorem factories_need_module_state (g : globals) :
  g_qnn g = None ->
  (forall i o k s p gr b bw,
     conv2d g i o k s p gr b bw = Raise (NameError "qnn")) /\
  (forall inplace, relu6 g inplace = Raise (NameError "qnn")) /\
  (forall bw, identity g bw = Raise (NameError "qnn")) /\
  (forall i o k s gr bw qi,
     ConvBNReLU.init g i o k s gr bw qi = Raise (NameError "qnn")) /\
  (forall inp oup s t qi, s = 1 \/ s = 2 ->
     InvertedResidual.init g inp oup s t qi = Raise (NameError "qnn")) /\
  (forall inp oup s t qi, s <> 1 -> s <> 2 ->
     InvertedResidual.init g inp oup s t qi = Raise AssertionError).
Proof.
  intros Hg.
  assert (Hq : global_qnn g = Raise (NameError "qnn")).
  { unfold global_qnn. by rewrite Hg. }
  assert (Hconv : forall i o k s p gr b bw,
            conv2d g i o k s p gr b bw = Raise (NameError "qnn")).
  { intros. unfold conv2d. by rewrite Hq. }
  assert (Hid : forall bw, identity g bw = Raise (NameError "qnn")).
  { intros. unfold identity. by rewrite Hq. }
  assert (Hblock : forall i o k s gr bw qi,
            ConvBNReLU.init g i o k s gr bw qi = Raise (NameError "qnn")).
  { intros. unfold ConvBNReLU.init. destruct qi; cbn [negb].
    - cbn [mbind result_bind]. by rewrite Hconv.
    - by rewrite Hid. }
  repeat split; try assumption.
  - intros. unfold relu6. by rewrite Hq.
  - intros inp oup s t qi Hs. unfold InvertedResidual.init.
    assert (Hst : negb ((s =? 1) || (s =? 2)) = false)
      by (destruct Hs; subst; reflexivity).
    rewrite Hst. destruct (negb (t =? 1)); rewrite !Hblock; reflexivity.
  - intros inp oup s t qi H1 H2. unfold InvertedResidual.init.
    apply Z.eqb_neq in H1, H2. by rewrite H1, H2.
Qed.

Lemma factories_need_module_state_witness :
  ConvBNReLU.init fresh_globals 3 32 3 2 1 VNone true = Raise (NameError "qnn").
Proof.
  by apply (factories_need_module_state fresh_globals).
Defined.

(** ** Shape of the blocks *)

Lemma Sequential_forward_app (l1 l2 : list submodule) (x : tensor) :
  Sequential.forward (l1 ++ l2) x = Sequential.forward l2 (Sequential.forward l1 x).
Proof. unfold Sequential.forward. apply fold_left_app. Qed.

(** X3. A [ConvBNReLU] block's convolution has a square kernel, no bias,
    and a padding that is never negative: 0 for kernel sizes up to 1 and
    the floor of (kernel_size - 1) / 2 above, so that an odd kernel is
    padded by exactly its half-width on each side; its batch norm has as
    many features as the convolution has outputs. *)
Theorem ConvBNReLU_padding (g : globals) (i o k s gr : Z) (bw : value)
    (qi : bool) (b : ConvBNReLU.t) :
  ConvBNReLU.init g i o k s gr bw qi = Return b ->
  let c := ConvBNReLU.conv b in
  QuantConv2d.kernel_size c = (k, k) /\
  QuantConv2d.bias c = None /\
  0 <= QuantConv2d.padding c /\
  (k <= 1 -> QuantConv2d.padding c = 0) /\
  (1 <= k -> 2 * QuantConv2d.padding c <= k - 1 <= 2 * QuantConv2d.padding c + 1) /\
  (forall h, k = 2 * h + 1 -> 0 <= h -> QuantConv2d.padding c = h) /\
  BatchNorm2d.num_features (ConvBNReLU.bn b) = QuantConv2d.out_channels c.
Proof.
  intros H c. apply ConvBNReLU_init_inv in H as (Hc & Hbn & _ & _).
  apply conv2d_inv in Hc as (_ & _ & Ho & Hk & _ & Hp & _ & _ & Hb & _).
  subst c. rewrite Hk, Hb, Hp, Hbn, Ho. cbn [BatchNorm2d.new BatchNorm2d.num_features].
  destruct (Z.gtb_spec k 1) as [Hgt | Hle]; repeat split; try lia.
  - apply Z.div_pos; lia.
  - pose proof (Z.mul_div_le (k - 1) 2). lia.
  - pose proof (Z.mul_succ_div_gt (k - 1) 2). lia.
  - intros h -> Hh. replace (2 * h + 1 - 1) with (h * 2) by lia.
    apply Z.div_mul. lia.
Qed.

Lemma ConvBNReLU_padding_witness :
  exists b,
    ConvBNReLU.init ready_globals 3 32 3 2 1 (VInt 8) true = Return b /\
    QuantConv2d.padding (ConvBNReLU.conv b) = 1.
Proof.
  eexists. split; [reflexivity |].
  eapply (ConvBNReLU_padding ready_globals 3 32 3 2 1 (VInt 8) true);
    [reflexivity | reflexivity | lia].
Defined.

(** X4. An [InvertedResidual] block is the sequence: a 1x1 expansion
    block (left out when [expand_ratio] is 1), a 3x3 depthwise block with
    the block's stride, whose convolution has
    groups = in_channels = out_channels = inp * expand_ratio, a 1x1
    convolution to [oup] channels, and a batch norm over [oup] features.
    Its body therefore ends with that batch norm: no activation follows
    the projection. *)
Theorem InvertedResidual_shape (g : globals) (inp oup s t : Z) (qi : bool)
    (r : InvertedResidual.t) (x : tensor) :
  InvertedResidual.init g inp oup s t qi = Return r ->
  exists pws dw pwl,
    InvertedResidual.conv r
    = map Block pws
      ++ [Block dw; Layer (Conv pwl); Layer (BatchNorm (BatchNorm2d.new oup))] /\
    length pws = (if t =? 1 then 0%nat else 1%nat) /\
    Forall (fun pw =>
              let c := ConvBNReLU.conv pw in
              QuantConv2d.in_channels c = inp /\
              QuantConv2d.out_channels c = inp * t /\
              QuantConv2d.kernel_size c = (1, 1) /\
              QuantConv2d.stride c = 1 /\
              QuantConv2d.padding c = 0 /\
              QuantConv2d.groups c = 1) pws /\
    (let c := ConvBNReLU.conv dw in
     QuantConv2d.in_channels c = inp * t /\
     QuantConv2d.out_channels c = inp * t /\
     QuantConv2d.groups c = inp * t /\
     QuantConv2d.kernel_size c = (3, 3) /\
     QuantConv2d.stride c = s /\
     QuantConv2d.padding c = 1) /\
    (QuantConv2d.in_channels pwl = inp * t /\
     QuantConv2d.out_channels pwl = oup /\
     QuantConv2d.kernel_size pwl = (1, 1) /\
     QuantConv2d.stride pwl = 1 /\
     QuantConv2d.padding pwl = 0 /\
     QuantConv2d.groups pwl = 1 /\
     QuantConv2d.bias pwl = None) /\
    Sequential.forward (InvertedResidual.conv r) x
    = call (BatchNorm (BatchNorm2d.new oup))
        (call (Conv pwl)
           (ConvBNReLU.forward dw (Sequential.forward (map Block pws) x))).
Proof.
  intros H. apply InvertedResidual_init_struct in H
    as (pws & dw & pwl & Hconv & Hpws & Hdw & Hpwl).
  exists pws, dw, pwl. split; [exact Hconv |].
  apply ConvBNReLU_init_inv in Hdw as (Hdwc & _).
  apply conv2d_inv in Hdwc as (_ & ? & ? & ? & ? & ? & ? & _).
  apply conv2d_inv in Hpwl as (_ & ? & ? & ? & ? & ? & ? & _ & ? & _).
  split; [| split; [| split; [| split]]].
  - destruct (t =? 1); [by subst | by destruct Hpws as (pw & -> & _)].
  - destruct (t =? 1); [subst; constructor |].
    destruct Hpws as (pw & -> & Hpw). repeat constructor;
      apply ConvBNReLU_init_inv in Hpw as (Hc & _);
      apply conv2d_inv in Hc as (_ & ? & ? & ? & ? & ? & ? & _); assumption.
  - by repeat split.
  - by repeat split.
  - rewrite Hconv, Sequential_forward_app. reflexivity.
Qed.

Lemma InvertedResidual_shape_witness :
  exists r, InvertedResidual.init ready_globals 16 24 2 6 false = Return r /\
            length (InvertedResidual.conv r) = 4%nat.
Proof.
  eexists. split; [reflexivity |].
  destruct (InvertedResidual_shape ready_globals 16 24 2 6 false _ input eq_refl)
    as (pws & dw & pwl & Hconv & Hlen & _).
  rewrite Hconv, length_app, length_map, Hlen. reflexivity.
Defined.

Lemma block_layers_plain (b : ConvBNReLU.t) :
  ConvBNReLU.quant_act b = None ->
  block_layers b
  = [Conv (ConvBNReLU.conv b); BatchNorm (ConvBNReLU.bn b); ReLU6 (ConvBNReLU.act b)].
Proof. unfold block_layers. by intros ->. Qed.

(** X5. A block holds an input quantizer only if it expands: with
    [expand_ratio] 1 the argument [quant_input] has no effect and no layer
    of the block is a [QuantIdentity]; otherwise there is one exactly when
    [quant_input] is false, and it is the block's first layer. *)
Theorem InvertedResidual_input_quantizer (g : globals) (inp oup s t : Z)
    (qi : bool) (r : InvertedResidual.t) :
  InvertedResidual.init g inp oup s t qi = Return r ->
  (t = 1 -> forall qi', InvertedResidual.init g inp oup s t qi' = Return r) /\
  List.filter is_Identity (residual_layers r)
  = (if (t =? 1) || qi then [] else List.filter is_Identity (firstn 1 (residual_layers r))) /\
  length (List.filter is_Identity (residual_layers r))
  = (if (t =? 1) || qi then 0%nat else 1%nat).
Proof.
  intros H. split.
  - intros -> qi'. rewrite <- H. reflexivity.
  - apply InvertedResidual_init_struct in H
      as (pws & dw & pwl & Hconv & Hpws & Hdw & _).
    apply ConvBNReLU_init_inv in Hdw as (_ & _ & _ & Hdwq).
    unfold residual_layers. rewrite Hconv, flat_map_app.
    cbn [flat_map submodule_layers app]. rewrite ?app_nil_r.
    rewrite (block_layers_plain dw Hdwq).
    destruct (t =? 1); cbn [orb].
    + subst pws. by split.
    + destruct Hpws as (pw & -> & Hpw).
      apply ConvBNReLU_init_inv in Hpw as (_ & _ & _ & Hq).
      cbn [map flat_map submodule_layers app]. rewrite ?app_nil_r.
      destruct qi.
      * rewrite (block_layers_plain pw Hq). by split.
      * destruct Hq as (a & Hq & _). unfold block_layers. rewrite Hq.
        split; reflexivity.
Qed.

Lemma InvertedResidual_input_quantizer_witness :
  exists r r',
    InvertedResidual.init ready_globals 32 16 1 1 true = Return r /\
    InvertedResidual.init ready_globals 16 24 2 6 false = Return r' /\
    length (List.filter is_Identity (residual_layers r)) = 0%nat /\
    length (List.filter is_Identity (residual_layers r')) = 1%nat.
Proof.
  eexists _, _. split; [reflexivity |]. split; [reflexivity |]. split.
  - exact (proj2 (proj2 (InvertedResidual_input_quantizer ready_globals
                           32 16 1 1 true _ eq_refl))).
  - exact (proj2 (proj2 (InvertedResidual_input_quantizer ready_globals
                           16 24 2 6 false _ eq_refl))).
Defined.

(** ** The nested loops as a list of calls *)

Lemma repeat_block_tail (g : globals) (out s t : Z) (qi : bool)
    (idx : list nat) (feats : list feature) (inp' : Z) (feats' : list feature) :
  Forall (fun i => i <> 0%nat) idx ->
  fold_result
    (fun '(input_channel, features) i =>
       let stride := if (i =? 0)%nat then s else 1 in
       b ← InvertedResidual.init g input_channel out stride t qi;
       Return (out, features ++ [Residual b]))
    idx (out, feats) = Return (inp', feats') ->
  exists blocks,
    Forall2 (fun a r => call_block g a = Return r)
      (repeat (out, out, 1, t, qi) (length idx)) blocks /\
    feats' = feats ++ map Residual blocks /\ inp' = out.
Proof.
  intros Hidx. revert feats.
  induction Hidx as [| i idx Hi _ IH]; intros feats H; cbn [fold_result] in H.
  - apply Return_inj in H. injection H as <- <-.
    exists []. split; [constructor |]. by rewrite app_nil_r.
  - bind_inv H. apply Nat.eqb_neq in Hi. rewrite Hi in Ha.
    bind_inv Ha. apply Return_inj in Ha. subst a.
    apply IH in H as (blocks & Hb & -> & ->).
    exists (a0 :: blocks). split; [by constructor |].
    by rewrite <- app_assoc.
Qed.

Lemma repeat_block_plan (g : globals) (out s t : Z) (qi : bool) (n : nat)
    (inp : Z) (feats : list feature) (inp' : Z) (feats' : list feature) :
  repeat_block g out s t qi n (inp, feats) = Return (inp', feats') ->
  exists blocks,
    Forall2 (fun a r => call_block g a = Return r)
      (stage_plan inp out s t qi n) blocks /\
    feats' = feats ++ map Residual blocks /\
    inp' = (match n with O => inp | S _ => out end).
Proof.
  unfold repeat_block. destruct n as [| k]; cbn [seq fold_result]; intros H.
  - apply Return_inj in H. injection H as <- <-.
    exists []. split; [constructor |]. by rewrite app_nil_r.
  - bind_inv H. cbn [Nat.eqb] in Ha. bind_inv Ha. apply Return_inj in Ha. subst a.
    apply repeat_block_tail in H as (blocks & Hb & -> & ->).
    + rewrite length_seq in Hb. exists (a0 :: blocks).
      split; [by constructor |]. by rewrite <- app_assoc.
    + apply List.Forall_forall. intros i Hi. apply in_seq in Hi. lia.
Qed.

Lemma stages_plan (g : globals) (w : float)
    (rows : list (Z * Z * nat * Z * bool)) (inp : Z) (feats : list feature)
    (inp' : Z) (feats' : list feature) :
  fold_result
    (fun st '(t, c, n, s, qi) =>
       output_channel ← int_mul c w;
       repeat_block g output_channel s t qi n st)
    rows (inp, feats) = Return (inp', feats') ->
  exists outs blocks,
    Forall2 (fun '(t, c, n, s, qi) out => int_mul c w = Return out) rows outs /\
    Forall2 (fun a r => call_block g a = Return r) (plan rows outs inp) blocks /\
    feats' = feats ++ map Residual blocks /\
    inp' = plan_out rows outs inp.
Proof.
  revert inp feats.
  induction rows as [| [[[[t c] n] s] qi] rows IH]; intros inp feats H;
    cbn [fold_result] in H.
  - apply Return_inj in H. injection H as <- <-.
    exists [], []. repeat split; [constructor | constructor |].
    by rewrite app_nil_r.
  - bind_inv H. destruct a as [inp1 feats1]. bind_inv Ha.
    apply repeat_block_plan in Ha as (blocks1 & Hb1 & -> & ->).
    apply IH in H as (outs & blocks & Houts & Hb & -> & ->).
    exists (a :: outs), (blocks1 ++ blocks). repeat split.
    + by constructor.
    + cbn [plan]. by apply Forall2_app.
    + by rewrite map_app, app_assoc.
Qed.

(** ** Initialisation leaves the architecture alone *)

Lemma init_conv_strip (c c' : QuantConv2d.t) :
  init_conv c = Return c' -> strip_conv c' = strip_conv c.
Proof.
  intros H. apply init_conv_Return in H as [_ ->]. unfold strip_conv. simpl.
  by destruct (QuantConv2d.bias c).
Qed.

Lemma init_layer_strip (l l' : layer) :
  init_layer l = Return l' -> strip_layer l' = strip_layer l.
Proof.
  destruct l; simpl; intros H; try (apply Return_inj in H; by subst).
  bind_inv H. apply Return_inj in H. subst. simpl.
  by rewrite (init_conv_strip _ _ Ha).
Qed.

Lemma init_block_strip (b b' : ConvBNReLU.t) :
  init_block b = Return b' -> strip_block b' = strip_block b.
Proof.
  unfold init_block. intros H. bind_inv H. apply Return_inj in H. subst b'.
  unfold strip_block. simpl. by rewrite (init_conv_strip _ _ Ha).
Qed.

Lemma init_submodule_strip (m m' : submodule) :
  init_submodule m = Return m' -> strip_submodule m' = strip_submodule m.
Proof.
  destruct m; simpl; intros H; bind_inv H; apply Return_inj in H; subst; simpl.
  - by rewrite (init_block_strip _ _ Ha).
  - by rewrite (init_layer_strip _ _ Ha).
Qed.

Lemma map_result_strip {A} (init : A -> result A) (strip : A -> A)
    (l l' : list A) :
  (forall a a', init a = Return a' -> strip a' = strip a) ->
  map_result init l = Return l' -> map strip l' = map strip l.
Proof.
  intros Hs H. apply map_result_Return in H.
  induction H as [| a a' l l' Ha _ IH]; [done |].
  simpl. by rewrite (Hs _ _ Ha), IH.
Qed.

Lemma init_feature_strip (f f' : feature) :
  init_feature f = Return f' -> strip_feature f' = strip_feature f.
Proof.
  destruct f as [b | r]; simpl; intros H; bind_inv H; apply Return_inj in H;
    subst; simpl.
  - by rewrite (init_block_strip _ _ Ha).
  - unfold init_residual in Ha. bind_inv Ha. apply Return_inj in Ha. subst a.
    unfold strip_residual. simpl.
    by rewrite (map_result_strip _ _ _ _ init_submodule_strip Ha0).
Qed.

(** Freshly constructed modules have nothing to strip. *)

Lemma conv2d_fresh (g : globals) (i o k s p gr : Z) (b : bool) (bw : value)
    (c : QuantConv2d.t) :
  conv2d g i o k s p gr b bw = Return c -> strip_conv c = c.
Proof.
  intros H. apply conv2d_inv in H as (_ & _ & _ & _ & _ & _ & _ & Hw & Hb & _).
  destruct c. unfold strip_conv. simpl in *. subst. by destruct b.
Qed.

Lemma ConvBNReLU_init_fresh (g : globals) (i o k s gr : Z) (bw : value)
    (qi : bool) (b : ConvBNReLU.t) :
  ConvBNReLU.init g i o k s gr bw qi = Return b -> strip_block b = b.
Proof.
  intros H. apply ConvBNReLU_init_inv in H as (Hc & Hbn & _ & _).
  apply conv2d_fresh in Hc. destruct b. unfold strip_block. simpl in *.
  by rewrite Hc, Hbn.
Qed.

Lemma call_block_fresh (g : globals) (a : block_args) (r : InvertedResidual.t) :
  call_block g a = Return r -> strip_residual r = r.
Proof.
  destruct a as [[[[inp oup] s] t] qi]. unfold call_block. intros H.
  apply InvertedResidual_init_struct in H
    as (pws & dw & pwl & Hconv & Hpws & Hdw & Hpwl).
  destruct r as [s' u conv]. unfold strip_residual. simpl in *. f_equal.
  rewrite Hconv, map_app. cbn [map strip_submodule strip_layer BatchNorm2d.new
    BatchNorm2d.num_features].
  rewrite (ConvBNReLU_init_fresh _ _ _ _ _ _ _ _ _ Hdw), (conv2d_fresh _ _ _ _ _ _ _ _ _ _ Hpwl).
  f_equal. destruct (t =? 1); [by subst |].
  destruct Hpws as (pw & -> & Hpw). simpl.
  by rewrite (ConvBNReLU_init_fresh _ _ _ _ _ _ _ _ _ Hpw).
Qed.

Lemma last_fc_inv (g : globals) (i o : Z) (fc : QuantLinear.t) :
  last_fc g i o = Return fc ->
  g_qnn g = Some (QuantLinear.qnn fc) /\
  QuantLinear.in_features fc = i /\
  QuantLinear.out_features fc = o /\
  qcfg_get g "last_fc_bitw" = Return (QuantLinear.nbits fc) /\
  qcfg_get g "symmetric" = Return (QuantLinear.symmetric fc) /\
  strip_linear fc = fc.
Proof.
  unfold last_fc. intros H. do 3 bind_inv H. apply Return_inj in H. subst fc.
  apply global_qnn_inv in Ha. simpl. by repeat split.
Qed.

Lemma blocks_fresh (g : globals) (args : list block_args)
    (blocks : list InvertedResidual.t) :
  Forall2 (fun a r => call_block g a = Return r) args blocks ->
  map strip_feature (map Residual blocks) = map Residual blocks.
Proof.
  induction 1 as [| a r args blocks Ha _ IH]; [done |].
  simpl. by rewrite (call_block_fresh _ _ _ Ha), IH.
Qed.

(** ** What the network classes build *)

Lemma built_after_init (g : globals) (stride0 : Z)
    (rows : list (Z * Z * nat * Z * bool)) (qlast : bool) (num_classes : Z)
    (w : float) (c0 cl : Z) (bw : value) (first last : ConvBNReLU.t)
    (inp : Z) (feats : list feature) (fc : QuantLinear.t)
    (features' : list feature) (classifier' : list layer) :
  int_mul 32 w = Return c0 ->
  int_mul 1280 (fmax f1_0 w) = Return cl ->
  qcfg_get g "first_conv_bitw" = Return bw ->
  ConvBNReLU.init g 3 c0 3 stride0 1 bw true = Return first ->
  fold_result
    (fun st '(t, c, n, s, qi) =>
       output_channel ← int_mul c w;
       repeat_block g output_channel s t qi n st)
    rows (c0, [Plain first]) = Return (inp, feats) ->
  ConvBNReLU.init g inp cl 1 1 1 VNone qlast = Return last ->
  last_fc g cl num_classes = Return fc ->
  map_result init_feature (feats ++ [Plain last]) = Return features' ->
  map_result init_layer [Linear fc] = Return classifier' ->
  built g stride0 rows qlast num_classes w
    (map strip_feature features') (map strip_layer classifier') cl.
Proof.
  intros Hc0 Hcl Hbw Hfirst Hfold Hlast Hfc Hfeats Hcls.
  apply stages_plan in Hfold as (outs & blocks & Houts & Hblocks & -> & ->).
  exists c0, outs, bw, first, blocks, last, fc.
  repeat split; try assumption.
  - rewrite (map_result_strip _ _ _ _ init_feature_strip Hfeats).
    rewrite map_app. cbn [map app strip_feature].
    rewrite (blocks_fresh _ _ _ Hblocks).
    rewrite (ConvBNReLU_init_fresh _ _ _ _ _ _ _ _ _ Hfirst).
    by rewrite (ConvBNReLU_init_fresh _ _ _ _ _ _ _ _ _ Hlast).
  - rewrite (map_result_strip _ _ _ _ init_layer_strip Hcls).
    cbn [map strip_layer].
    by destruct (last_fc_inv _ _ _ _ Hfc) as (_ & _ & _ & _ & _ & ->).
Qed.

Lemma MobileNetV2_init_built (g : globals) (num_classes : Z) (w : float)
    (m : MobileNetV2.t) :
  MobileNetV2.init g num_classes w = Return m ->
  built g 2 MobileNetV2.inverted_residual_setting false num_classes w
    (map strip_feature (MobileNetV2.features m))
    (map strip_layer (MobileNetV2.classifier m))
    (MobileNetV2.last_channel m).
Proof.
  unfold MobileNetV2.init. intros H.
  apply bind_Return in H as (c0 & Hc0 & H).
  apply bind_Return in H as (cl & Hcl & H).
  apply bind_Return in H as (bw & Hbw & H).
  apply bind_Return in H as (first & Hfirst & H).
  apply bind_Return in H as ([inp feats] & Hfold & H).
  apply bind_Return in H as (last & Hlast & H).
  apply bind_Return in H as (fc & Hfc & H).
  apply bind_Return in H as (features' & Hfeats & H).
  apply bind_Return in H as (classifier' & Hcls & H).
  apply Return_inj in H. subst m.
  cbn [MobileNetV2.features MobileNetV2.classifier MobileNetV2.last_channel].
  by eapply built_after_init.
Qed.

Lemma MobileNetV2_CIFAR_init_built (g : globals) (num_classes : Z) (w : float)
    (m : MobileNetV2_CIFAR.t) :
  MobileNetV2_CIFAR.init g num_classes w = Return m ->
  built g 1 cifar_rows true num_classes w
    (map strip_feature (MobileNetV2_CIFAR.features m))
    (map strip_layer (MobileNetV2_CIFAR.classifier m))
    (MobileNetV2_CIFAR.last_channel m).
Proof.
  unfold MobileNetV2_CIFAR.init. intros H.
  apply bind_Return in H as (c0 & Hc0 & H).
  apply bind_Return in H as (cl & Hcl & H).
  apply bind_Return in H as (bw & Hbw & H).
  apply bind_Return in H as (first & Hfirst & H).
  apply bind_Return in H as ([inp feats] & Hfold & H).
  apply bind_Return in H as (last & Hlast & H).
  apply bind_Return in H as (fc & Hfc & H).
  apply bind_Return in H as (features' & Hfeats & H).
  apply bind_Return in H as (classifier' & Hcls & H).
  apply Return_inj in H. subst m.
  cbn [MobileNetV2_CIFAR.features MobileNetV2_CIFAR.classifier
       MobileNetV2_CIFAR.last_channel].
  eapply built_after_init; eassumption.
Qed.

Lemma set_model_built (cfg : config) (q : module_ref) (g : globals)
    (m : model) (size : Z) :
  snd (set_model cfg q g) = Return (m, size) ->
  exists classes,
    (dataset cfg, classes, size) ∈ dataset_table /\
    built (Globals (Some q) (Some (qcfg_of cfg)))
      (stem_stride m) (model_rows m) (last_quant_input m) classes (width_mult cfg)
      (map strip_feature (model_features m))
      (map strip_layer (model_classifier m))
      (model_last_channel m).
Proof.
  unfold set_model. cbn [snd g_qnn g_qcfg]. intros H.
  destruct (str_in (dataset cfg) ["cifar10"; "cifar100"]) eqn:Hc.
  - apply bind_Return in H as (classes & Hcl & H).
    apply bind_Return in H as (n & Hn & H).
    apply Return_inj in H. injection H as <- <-.
    exists classes. split; [| by apply MobileNetV2_CIFAR_init_built].
    apply str_in_elem_of in Hc. unfold dataset_table.
    rewrite !elem_of_cons, elem_of_nil in Hc. rewrite !elem_of_cons.
    destruct Hc as [E | [E | []]]; rewrite E in *;
      vm_compute in Hcl; injection Hcl as <-; tauto.
  - destruct (str_in (dataset cfg) ["imagenet"]) eqn:Hi; [| discriminate].
    apply bind_Return in H as (n & Hn & H).
    apply Return_inj in H. injection H as <- <-.
    exists 1000. split; [| by apply MobileNetV2_init_built].
    apply str_in_elem_of in Hi. unfold dataset_table.
    rewrite elem_of_cons, elem_of_nil in Hi. rewrite !elem_of_cons.
    destruct Hi as [E | []]. rewrite E. tauto.
Qed.

(** ** Channel bookkeeping *)

Lemma flows_app (c : Z) (l1 l2 : list layer) :
  flows c (l1 ++ l2)
  = match flows c l1 with
    | Some c' => flows c' l2
    | None => None
    end.
Proof.
  revert c. induction l1 as [| m l1 IH]; intros c; [done |].
  simpl. destruct (flow1 c m); [apply IH | done].
Qed.

Lemma flows_strip (c : Z) (l : list layer) :
  flows c (map strip_layer l) = flows c l.
Proof.
  revert c. induction l as [| m l IH]; intros c; [done |].
  simpl. assert (H1 : flow1 c (strip_layer m) = flow1 c m) by by destruct m.
  rewrite H1. by destruct (flow1 c m).
Qed.

Lemma block_layers_strip (b : ConvBNReLU.t) :
  block_layers (strip_block b) = map strip_layer (block_layers b).
Proof.
  unfold block_layers. rewrite map_app. simpl.
  by destruct (ConvBNReLU.quant_act b).
Qed.

Lemma feature_layers_strip (fs : list feature) :
  flat_map feature_layers (map strip_feature fs)
  = map strip_layer (flat_map feature_layers fs).
Proof.
  induction fs as [| f fs IH]; [done |].
  simpl. rewrite map_app, IH. f_equal.
  destruct f as [b | r]; simpl; [apply block_layers_strip |].
  unfold residual_layers. simpl.
  induction (InvertedResidual.conv r) as [| m l IHl]; [done |].
  simpl. rewrite map_app, IHl. f_equal.
  destruct m; simpl; [apply block_layers_strip | done].
Qed.

Lemma flows_block (g : globals) (i o k s gr : Z) (bw : value) (qi : bool)
    (b : ConvBNReLU.t) :
  ConvBNReLU.init g i o k s gr bw qi = Return b ->
  gr = 1 \/ (gr = i /\ o = i) ->
  flows i (block_layers b) = Some o.
Proof.
  intros H Hgr. apply ConvBNReLU_init_inv in H as (Hc & Hbn & _ & Hq).
  apply conv2d_inv in Hc as (_ & Hi & Ho & _ & _ & _ & Hg & _).
  assert (Hconv : flow1 i (Conv (ConvBNReLU.conv b)) = Some o).
  { simpl. rewrite Hi, Ho, Hg, Z.eqb_refl.
    destruct Hgr as [-> | [-> ->]]; [done |].
    by rewrite !Z.eqb_refl, orb_true_r. }
  assert (Hrest : flows i [Conv (ConvBNReLU.conv b); BatchNorm (ConvBNReLU.bn b);
                           ReLU6 (ConvBNReLU.act b)] = Some o).
  { cbn [flows]. rewrite Hconv, Hbn. simpl. by rewrite Z.eqb_refl. }
  unfold block_layers. destruct qi.
  - by rewrite Hq.
  - by destruct Hq as (a & -> & _).
Qed.

Lemma flows_residual (g : globals) (inp oup s t : Z) (qi : bool)
    (r : InvertedResidual.t) :
  call_block g (inp, oup, s, t, qi) = Return r ->
  flows inp (residual_layers r) = Some oup.
Proof.
  unfold call_block. intros H.
  apply InvertedResidual_init_struct in H
    as (pws & dw & pwl & Hconv & Hpws & Hdw & Hpwl).
  unfold residual_layers. rewrite Hconv, flat_map_app, flows_app.
  assert (Hpw : flows inp (flat_map submodule_layers (map Block pws))
                = Some (inp * t)).
  { destruct (Z.eqb_spec t 1) as [-> | _].
    - subst pws. simpl. f_equal. lia.
    - destruct Hpws as (pw & -> & Hpw). simpl. rewrite app_nil_r.
      eapply flows_block; [exact Hpw | by left]. }
  rewrite Hpw. cbn [flat_map submodule_layers]. rewrite flows_app.
  rewrite (flows_block _ _ _ _ _ _ _ _ _ Hdw) by (right; done).
  apply conv2d_inv in Hpwl as (_ & Hi & Ho & _ & _ & _ & Hg & _).
  simpl. rewrite Hi, Ho, Hg, !Z.eqb_refl. simpl. by rewrite Z.eqb_refl.
Qed.

Lemma flows_plan (g : globals) (rows : list (Z * Z * nat * Z * bool))
    (outs : list Z) (inp : Z) (blocks : list InvertedResidual.t) :
  Forall2 (fun a r => call_block g a = Return r) (plan rows outs inp) blocks ->
  flows inp (flat_map feature_layers (map Residual blocks))
  = Some (plan_out rows outs inp).
Proof.
  assert (Htail : forall out t qi k bs,
            Forall2 (fun a r => call_block g a = Return r)
              (repeat (out, out, 1, t, qi) k) bs ->
            flows out (flat_map feature_layers (map Residual bs)) = Some out).
  { intros out t qi k. induction k as [| k IH]; intros bs Hbs;
      inversion Hbs as [| a r l l' Ha Hl]; subst; [done |].
    simpl. rewrite flows_app, (flows_residual _ _ _ _ _ _ _ Ha). by apply IH. }
  revert outs inp blocks.
  induction rows as [| [[[[t c] n] s] qi] rows IH]; intros outs inp blocks H.
  { inversion H. by subst. }
  destruct outs as [| out outs]; [inversion H; by subst |].
  cbn [plan plan_out] in *.
  apply Forall2_app_inv_l in H as (b1 & b2 & H1 & H2 & ->).
  rewrite map_app, flat_map_app, flows_app.
  assert (Hstage : flows inp (flat_map feature_layers (map Residual b1))
                   = Some (match n with O => inp | S _ => out end)).
  { destruct n as [| k]; cbn [stage_plan] in H1.
    - inversion H1. by subst.
    - inversion H1 as [| a r l l' Ha Hl]; subst. simpl.
      rewrite flows_app, (flows_residual _ _ _ _ _ _ _ Ha).
      by eapply Htail. }
  rewrite Hstage. by apply IH.
Qed.

(** X6. A model returned by [set_model] is wired consistently: starting
    from the 3 channels of an image, every convolution, batch norm and
    linear layer, in the order of the network, was declared for exactly
    the number of channels its predecessor produces; every convolution is
    ordinary or depthwise; and what comes out of the last layer has as
    many entries as the dataset has classes. *)
Theorem set_model_channels_chain (cfg : config) (q : module_ref) (g : globals)
    (m : model) (size : Z) :
  snd (set_model cfg q g) = Return (m, size) ->
  exists classes,
    (dataset cfg, classes, size) ∈ dataset_table /\
    flows 3 (flat_map feature_layers (model_features m))
      = Some (model_last_channel m) /\
    flows (model_last_channel m) (model_classifier m) = Some classes /\
    flows 3 (model_layers m) = Some classes.
Proof.
  intros H. apply set_model_built in H as (classes & Hds & Hb).
  exists classes. split; [exact Hds |].
  destruct Hb as (c0 & outs & bw & first & blocks & last & fc & Hc0 & Hcl & Houts
                  & Hbw & Hfirst & Hblocks & Hlast & Hfc & Hfeats & Hcls).
  assert (H1 : flows 3 (flat_map feature_layers (model_features m))
               = Some (model_last_channel m)).
  { rewrite <- flows_strip, <- feature_layers_strip, Hfeats.
    cbn [flat_map feature_layers]. rewrite flows_app.
    rewrite (flows_block _ _ _ _ _ _ _ _ _ Hfirst) by (by left).
    rewrite flat_map_app, flows_app, (flows_plan _ _ _ _ _ Hblocks).
    cbn [flat_map feature_layers]. rewrite app_nil_r.
    apply (flows_block _ _ _ _ _ _ _ _ _ Hlast). by left. }
  assert (H2 : flows (model_last_channel m) (model_classifier m) = Some classes).
  { rewrite <- flows_strip, Hcls.
    destruct (last_fc_inv _ _ _ _ Hfc) as (_ & Hi & Ho & _).
    simpl. by rewrite Hi, Ho, Z.eqb_refl. }
  split; [exact H1 |]. split; [exact H2 |].
  unfold model_layers. by rewrite flows_app, H1.
Qed.

Lemma set_model_channels_chain_witness :
  exists m size classes,
    snd (set_model (sample_cfg "cifar100" f0_5 "train" "epoch") "lsq.qnn" fresh_globals)
      = Return (m, size) /\
    flows 3 (model_layers m) = Some classes.
Proof.
  destruct (snd (set_model (sample_cfg "cifar100" f0_5 "train" "epoch")
                   "lsq.qnn" fresh_globals)) as [[m size] | e] eqn:E.
  - destruct (set_model_channels_chain _ _ _ _ _ E)
      as (classes & _ & _ & _ & Hflow).
    exists m, size, classes. split; [reflexivity | exact Hflow].
  - vm_compute in E. discriminate E.
Defined.

(** ** Skip connections across the network *)

Lemma residual_summary_strip (fs : list feature) :
  residual_summary (map strip_feature fs) = residual_summary fs.
Proof.
  unfold residual_summary. induction fs as [| f fs IH]; [done |].
  simpl. rewrite IH. by destruct f.
Qed.

Lemma residual_summary_blocks (g : globals) (args : list block_args)
    (blocks : list InvertedResidual.t) :
  Forall2 (fun a r => call_block g a = Return r) args blocks ->
  residual_summary (map Residual blocks) = map args_summary args.
Proof.
  induction 1 as [| a r args blocks Ha _ IH]; [done |].
  destruct a as [[[[inp oup] s] t] qi]. unfold call_block in Ha.
  apply InvertedResidual_init_inv in Ha as (_ & Hs & Hu).
  unfold residual_summary in *. simpl. by rewrite IH, Hs, Hu.
Qed.

Lemma built_summary (g : globals) (stride0 : Z)
    (rows : list (Z * Z * nat * Z * bool)) (qlast : bool) (classes : Z)
    (w : float) (fs : list feature) (cls : list layer) (cl : Z) :
  built g stride0 rows qlast classes w (map strip_feature fs) cls cl ->
  exists c0 outs,
    int_mul 32 w = Return c0 /\
    Forall2 (fun '(t, c, n, s, qi) out => int_mul c w = Return out) rows outs /\
    residual_summary fs = map args_summary (plan rows outs c0) /\
    length fs = S (S (length (plan rows outs c0))).
Proof.
  intros (c0 & outs & bw & first & blocks & last & fc & Hc0 & _ & Houts
          & _ & _ & Hblocks & _ & _ & Hfeats & _).
  exists c0, outs. repeat split; try assumption.
  - rewrite <- residual_summary_strip, Hfeats.
    change (Plain first :: map Residual blocks ++ [Plain last])
      with ([Plain first] ++ map Residual blocks ++ [Plain last]).
    unfold residual_summary. rewrite !flat_map_app. simpl. rewrite app_nil_r.
    by apply (residual_summary_blocks g).
  - apply (f_equal (@length feature)) in Hfeats.
    rewrite length_map in Hfeats. rewrite Hfeats. simpl.
    rewrite length_app, length_map. simpl.
    apply Forall2_length in Hblocks. rewrite Hblocks. lia.
Qed.

(** X7. In every model that [set_model] returns there are 19 feature
    modules, 17 of them residual blocks.  Inside a stage every block after
    the first has stride 1 and a skip connection; the first block of a
    stage has the stage's stride, and no skip connection when that stride
    is 2; a first block with stride 1 has a skip connection exactly when
    the scaled channel count [int(c * width_mult)] of its stage equals
    that of the stage before it (of the stem, 32, for the first stage). *)
Theorem set_model_skip_pattern (cfg : config) (q : module_ref) (g : globals)
    (m : model) (size : Z) :
  snd (set_model cfg q g) = Return (m, size) ->
  length (model_features m) = 19%nat /\
  length (residual_summary (model_features m)) = 17%nat /\
  match m with
  | ImageNetModel _ =>
      exists k32 k16 k64 k96 k160 k320,
        int_mul 32 (width_mult cfg) = Return k32 /\
        int_mul 16 (width_mult cfg) = Return k16 /\
        int_mul 64 (width_mult cfg) = Return k64 /\
        int_mul 96 (width_mult cfg) = Return k96 /\
        int_mul 160 (width_mult cfg) = Return k160 /\
        int_mul 320 (width_mult cfg) = Return k320 /\
        residual_summary (model_features m)
        = imagenet_skips (k32 =? k16) (k64 =? k96) (k160 =? k320)
  | CifarModel _ =>
      exists k32 k16 k24 k64 k96 k160 k320,
        int_mul 32 (width_mult cfg) = Return k32 /\
        int_mul 16 (width_mult cfg) = Return k16 /\
        int_mul 24 (width_mult cfg) = Return k24 /\
        int_mul 64 (width_mult cfg) = Return k64 /\
        int_mul 96 (width_mult cfg) = Return k96 /\
        int_mul 160 (width_mult cfg) = Return k160 /\
        int_mul 320 (width_mult cfg) = Return k320 /\
        residual_summary (model_features m)
        = cifar_skips (k32 =? k16) (k16 =? k24) (k24 =? k32)
            (k64 =? k96) (k160 =? k320)
  end.
Proof.
  intros H. apply set_model_built in H as (classes & _ & Hb).
  apply built_summary in Hb as (c0 & outs & Hc0 & Houts & Hsum & Hlen).
  destruct m as [n | n]; cbn [model_rows model_features] in *.
  - unfold MobileNetV2.inverted_residual_setting in *.
    apply Forall2_cons_inv_l in Houts as (o1 & ? & E1 & Houts & ->).
    apply Forall2_cons_inv_l in Houts as (o2 & ? & E2 & Houts & ->).
    apply Forall2_cons_inv_l in Houts as (o3 & ? & E3 & Houts & ->).
    apply Forall2_cons_inv_l in Houts as (o4 & ? & E4 & Houts & ->).
    apply Forall2_cons_inv_l in Houts as (o5 & ? & E5 & Houts & ->).
    apply Forall2_cons_inv_l in Houts as (o6 & ? & E6 & Houts & ->).
    apply Forall2_cons_inv_l in Houts as (o7 & ? & E7 & Houts & ->).
    apply Forall2_nil_inv_l in Houts as ->.
    cbn [plan stage_plan repeat app map args_summary length] in Hsum, Hlen.
    rewrite ?Z.eqb_refl in Hsum. cbn [Z.eqb Pos.eqb andb] in Hsum.
    rewrite Hsum. split; [exact Hlen |]. split; [reflexivity |].
    exists c0, o1, o4, o5, o6, o7. by repeat split.
  - unfold cifar_rows, MobileNetV2_CIFAR.inverted_residual_setting in *.
    cbn [map] in *.
    apply Forall2_cons_inv_l in Houts as (o1 & ? & E1 & Houts & ->).
    apply Forall2_cons_inv_l in Houts as (o2 & ? & E2 & Houts & ->).
    apply Forall2_cons_inv_l in Houts as (o3 & ? & E3 & Houts & ->).
    apply Forall2_cons_inv_l in Houts as (o4 & ? & E4 & Houts & ->).
    apply Forall2_cons_inv_l in Houts as (o5 & ? & E5 & Houts & ->).
    apply Forall2_cons_inv_l in Houts as (o6 & ? & E6 & Houts & ->).
    apply Forall2_cons_inv_l in Houts as (o7 & ? & E7 & Houts & ->).
    apply Forall2_nil_inv_l in Houts as ->.
    cbn [plan stage_plan repeat app map args_summary length] in Hsum, Hlen.
    rewrite ?Z.eqb_refl in Hsum. cbn [Z.eqb Pos.eqb andb] in Hsum.
    rewrite Hsum. split; [exact Hlen |]. split; [reflexivity |].
    assert (E : o3 = c0) by congruence. subst o3.
    exists c0, o1, o2, o4, o5, o6, o7. by repeat split.
Qed.

Lemma set_model_skip_pattern_witness :
  exists m,
    snd (set_model (sample_cfg "cifar10" f1_0 "train" "epoch") "lsq.qnn" fresh_globals)
      = Return (m, 32) /\
    length (residual_summary (model_features m)) = 17%nat.
Proof.
  destruct sample_model_layers as (m & Hm & _).
  exists m. split; [exact Hm |].
  exact (proj1 (proj2 (set_model_skip_pattern _ _ _ _ _ Hm))).
Defined.

(** ** Quantization options across the network *)

Lemma quantized_strip (cfg : config) (q : module_ref) (wbits : value) (l : layer) :
  quantized cfg q wbits (strip_layer l) <-> quantized cfg q wbits l.
Proof. by destruct l. Qed.

Lemma Forall_quantized_strip (cfg : config) (q : module_ref) (wbits : value)
    (l : list layer) :
  Forall (quantized cfg q wbits) (map strip_layer l) ->
  Forall (quantized cfg q wbits) l.
Proof.
  rewrite List.Forall_map. apply List.Forall_impl. intros a. apply quantized_strip.
Qed.

Section Quantization.

Variable cfg : config.
Variable q : module_ref.

Local Abbreviation g := (Globals (Some q) (Some (qcfg_of cfg))).

Lemma bits_chosen (bw v : value) :
  (if is_None bw then qcfg_get g "bitw" else Return bw) = Return v ->
  v = (if is_None bw then bitw cfg else bw).
Proof.
  destruct (is_None bw); [rewrite qcfg_get_bitw |]; by intros [= <-].
Qed.

Lemma quantized_block (i o k s gr : Z) (bw : value) (qi : bool)
    (b : ConvBNReLU.t) :
  ConvBNReLU.init g i o k s gr bw qi = Return b ->
  Forall (quantized cfg q (if is_None bw then bitw cfg else bw)) (block_layers b).
Proof.
  intros H. apply ConvBNReLU_init_inv in H as (Hc & _ & Ha & Hq).
  apply conv2d_inv in Hc as (Hcq & _ & _ & _ & _ & _ & _ & _ & _ & Hcb & Hcs).
  apply relu6_inv in Ha as (Haq & Hai & Hab).
  apply bits_chosen in Hcb. rewrite qcfg_get_symmetric in Hcs.
  rewrite qcfg_get_bita in Hab.
  assert (Hrest : Forall (quantized cfg q (if is_None bw then bitw cfg else bw))
                    [Conv (ConvBNReLU.conv b); BatchNorm (ConvBNReLU.bn b);
                     ReLU6 (ConvBNReLU.act b)]).
  { simpl in Hcq, Haq.
    constructor; [simpl; repeat split; congruence |].
    constructor; [exact I |].
    constructor; [simpl; repeat split; congruence | constructor]. }
  unfold block_layers. destruct qi.
  - by rewrite Hq.
  - destruct Hq as (a & -> & Hi). apply identity_inv in Hi as (Hiq & Hib & His).
    apply bits_chosen in Hib. rewrite qcfg_get_symmetric in His.
    simpl in Hiq. constructor; [| exact Hrest].
    simpl. repeat split; congruence.
Qed.

Lemma quantized_residual (a : block_args) (r : InvertedResidual.t) :
  call_block g a = Return r ->
  Forall (quantized cfg q (bitw cfg)) (residual_layers r).
Proof.
  destruct a as [[[[inp oup] s] t] qi]. unfold call_block. intros H.
  apply InvertedResidual_init_struct in H
    as (pws & dw & pwl & Hconv & Hpws & Hdw & Hpwl).
  unfold residual_layers. rewrite Hconv, flat_map_app. apply Forall_app. split.
  - destruct (t =? 1); [subst; constructor |].
    destruct Hpws as (pw & -> & Hpw). simpl. rewrite app_nil_r.
    exact (quantized_block _ _ _ _ _ _ _ _ Hpw).
  - cbn [flat_map submodule_layers]. apply Forall_app. split.
    + exact (quantized_block _ _ _ _ _ _ _ _ Hdw).
    + apply conv2d_inv in Hpwl
        as (Hcq & _ & _ & _ & _ & _ & _ & _ & _ & Hcb & Hcs).
      apply (bits_chosen VNone) in Hcb. rewrite qcfg_get_symmetric in Hcs.
      simpl in Hcq, Hcb.
      constructor; [simpl; repeat split; congruence |].
      constructor; [exact I | constructor].
Qed.

Lemma quantized_blocks (args : list block_args)
    (blocks : list InvertedResidual.t) :
  Forall2 (fun a r => call_block g a = Return r) args blocks ->
  Forall (quantized cfg q (bitw cfg))
    (flat_map feature_layers (map Residual blocks)).
Proof.
  induction 1 as [| a r args blocks Ha _ IH]; [constructor |].
  simpl. apply Forall_app. split; [by eapply quantized_residual | exact IH].
Qed.

Lemma quantized_fc (i o : Z) (fc : QuantLinear.t) :
  last_fc g i o = Return fc -> quantized cfg q (bitw cfg) (Linear fc).
Proof.
  intros H. apply last_fc_inv in H as (Hq & _ & _ & Hb & Hs & _).
  rewrite qcfg_get_last_fc_bitw in Hb. rewrite qcfg_get_symmetric in Hs.
  simpl in Hq. simpl. repeat split; congruence.
Qed.

End Quantization.

(** X8. Every quantized layer of a model returned by [set_model cfg qnn]
    comes from the [qnn] of that call and carries [cfg.symmetric]; every
    activation has [cfg.bita] bits; the first convolution has
    [cfg.first_conv_bitw] bits, or [cfg.bitw] when that option is [None];
    every other convolution and every input quantizer has [cfg.bitw]
    bits; the classifier has [cfg.last_fc_bitw] bits, with no such
    fallback.  Nothing of an earlier call's module state is left in it. *)
Theorem set_model_quantization (cfg : config) (q : module_ref) (g : globals)
    (m : model) (size : Z) :
  snd (set_model cfg q g) = Return (m, size) ->
  exists stem bn act rest,
    model_layers m = Conv stem :: BatchNorm bn :: ReLU6 act :: rest /\
    quantized cfg q (first_bits cfg) (Conv stem) /\
    quantized cfg q (first_bits cfg) (ReLU6 act) /\
    Forall (quantized cfg q (bitw cfg)) rest.
Proof.
  intros H. apply set_model_built in H as (classes & _ & Hb).
  destruct Hb as (c0 & outs & bw & first & blocks & last & fc & _ & _ & _
                  & Hbw & Hfirst & Hblocks & Hlast & Hfc & Hfeats & Hcls).
  rewrite qcfg_get_first_conv_bitw in Hbw. injection Hbw as <-.
  pose proof (quantized_block cfg q _ _ _ _ _ _ _ _ Hfirst) as Qfirst.
  pose proof (ConvBNReLU_init_inv _ _ _ _ _ _ _ _ _ Hfirst) as (_ & _ & _ & Hq).
  rewrite (block_layers_plain _ Hq) in Qfirst.
  assert (Hall : map strip_layer (model_layers m)
                 = block_layers first
                   ++ (flat_map feature_layers (map Residual blocks)
                       ++ block_layers last ++ [Linear fc])).
  { unfold model_layers. rewrite map_app, <- feature_layers_strip, Hfeats, Hcls.
    cbn [flat_map feature_layers]. rewrite flat_map_app.
    cbn [flat_map feature_layers]. by rewrite app_nil_r, <- !app_assoc. }
  rewrite (block_layers_plain _ Hq) in Hall.
  assert (Hrest : Forall (quantized cfg q (bitw cfg))
                    (flat_map feature_layers (map Residual blocks)
                     ++ block_layers last ++ [Linear fc])).
  { apply Forall_app. split; [by eapply quantized_blocks |].
    apply Forall_app. split.
    - exact (quantized_block cfg q _ _ _ _ _ _ _ _ Hlast).
    - constructor; [by eapply quantized_fc | constructor]. }
  destruct (model_layers m) as [| l1 [| l2 [| l3 rest]]]; try discriminate Hall.
  cbn [map app] in Hall. injection Hall as H1 H2 H3 Hr.
  destruct l1 as [stem | | | |]; try discriminate H1.
  destruct l2 as [| | | | bn]; try discriminate H2.
  destruct l3 as [| act | | |]; try discriminate H3.
  exists stem, bn, act, rest. split; [reflexivity |].
  inversion Qfirst as [| ? ? Q1 Q']; subst.
  inversion Q' as [| ? ? _ Q'']; subst.
  inversion Q'' as [| ? ? Q3 _]; subst.
  split; [| split].
  - apply quantized_strip. rewrite H1. exact Q1.
  - apply quantized_strip. rewrite H3. exact Q3.
  - apply Forall_quantized_strip. by rewrite Hr.
Qed.

Lemma set_model_quantization_witness :
  exists m stem bn act rest,
    snd (set_model (sample_cfg "cifar10" f1_0 "train" "epoch") "lsq.qnn" fresh_globals)
      = Return (m, 32) /\
    model_layers m = Conv stem :: BatchNorm bn :: ReLU6 act :: rest /\
    QuantConv2d.nbits stem = VInt 8.
Proof.
  destruct sample_model_layers as (m & Hm & _).
  destruct (set_model_quantization _ _ _ _ _ Hm)
    as (stem & bn & act & rest & Hl & (_ & Hb & _) & _).
  exists m, stem, bn, act, rest. split; [exact Hm |]. split; [exact Hl | exact Hb].
Defined.

(** ** Input quantizers across the network *)

Lemma identity_count_strip (l : list layer) :
  length (List.filter is_Identity (map strip_layer l))
  = length (List.filter is_Identity l).
Proof.
  induction l as [| m l IH]; [done |].
  simpl. destruct m; simpl; by rewrite ?IH.
Qed.

Lemma identity_count_block (g : globals) (i o k s gr : Z) (bw : value)
    (qi : bool) (b : ConvBNReLU.t) :
  ConvBNReLU.init g i o k s gr bw qi = Return b ->
  length (List.filter is_Identity (block_layers b))
  = (if qi then 0%nat else 1%nat).
Proof.
  intros H. apply ConvBNReLU_init_inv in H as (_ & _ & _ & Hq).
  unfold block_layers. destruct qi.
  - by rewrite Hq.
  - by destruct Hq as (a & -> & _).
Qed.

Lemma identity_count_residual (g : globals) (a : block_args)
    (r : InvertedResidual.t) :
  call_block g a = Return r ->
  length (List.filter is_Identity (residual_layers r)) = identity_in a.
Proof.
  destruct a as [[[[inp oup] s] t] qi]. unfold call_block, identity_in.
  intros H. apply InvertedResidual_init_struct in H
    as (pws & dw & pwl & Hconv & Hpws & Hdw & _).
  unfold residual_layers. rewrite Hconv, flat_map_app, List.filter_app, length_app.
  cbn [flat_map submodule_layers]. rewrite List.filter_app, length_app.
  rewrite (identity_count_block _ _ _ _ _ _ _ _ _ Hdw). cbn [List.filter is_Identity app length].
  destruct (t =? 1); cbn [orb].
  - by subst pws.
  - destruct Hpws as (pw & -> & Hpw). cbn [map flat_map submodule_layers].
    rewrite app_nil_r, (identity_count_block _ _ _ _ _ _ _ _ _ Hpw).
    by destruct qi.
Qed.

Lemma identity_count_blocks (g : globals) (args : list block_args)
    (blocks : list InvertedResidual.t) :
  Forall2 (fun a r => call_block g a = Return r) args blocks ->
  length (List.filter is_Identity (flat_map feature_layers (map Residual blocks)))
  = list_sum (map identity_in args).
Proof.
  induction 1 as [| a r args blocks Ha _ IH]; [done |].
  simpl. rewrite List.filter_app, length_app, IH.
  by rewrite (identity_count_residual _ _ _ Ha).
Qed.

(** X9. The two network classes differ in their input quantizers: a
    model of the ImageNet class holds 17 [QuantIdentity] layers (one at the
    head of each of the 16 expanding blocks, one at the head of the last
    1x1 block), a model of the CIFAR class holds none - whatever the
    configuration. *)
Theorem set_model_input_quantizers (cfg : config) (q : module_ref) (g : globals)
    (m : model) (size : Z) :
  snd (set_model cfg q g) = Return (m, size) ->
  length (List.filter is_Identity (model_layers m))
  = match m with
    | ImageNetModel _ => 17%nat
    | CifarModel _ => 0%nat
    end.
Proof.
  intros H. apply set_model_built in H as (classes & _ & Hb).
  destruct Hb as (c0 & outs & bw & first & blocks & last & fc & _ & _ & Houts
                  & _ & Hfirst & Hblocks & Hlast & _ & Hfeats & Hcls).
  rewrite <- identity_count_strip. unfold model_layers.
  rewrite map_app, <- feature_layers_strip, Hfeats, Hcls.
  cbn [flat_map feature_layers]. rewrite flat_map_app.
  cbn [flat_map feature_layers]. rewrite app_nil_r.
  rewrite !List.filter_app, !length_app.
  rewrite (identity_count_block _ _ _ _ _ _ _ _ _ Hfirst).
  rewrite (identity_count_block _ _ _ _ _ _ _ _ _ Hlast).
  rewrite (identity_count_blocks _ _ _ Hblocks).
  cbn [List.filter is_Identity length].
  destruct m as [n | n]; cbn [model_rows last_quant_input] in *.
  - unfold MobileNetV2.inverted_residual_setting in *.
    repeat (apply Forall2_cons_inv_l in Houts as (? & ? & _ & Houts & ->)).
    apply Forall2_nil_inv_l in Houts as ->. reflexivity.
  - unfold cifar_rows, MobileNetV2_CIFAR.inverted_residual_setting in *.
    cbn [map] in Houts.
    repeat (apply Forall2_cons_inv_l in Houts as (? & ? & _ & Houts & ->)).
    apply Forall2_nil_inv_l in Houts as ->. reflexivity.
Qed.

Lemma set_model_input_quantizers_witness :
  exists m,
    snd (set_model (sample_cfg "cifar10" f1_0 "train" "epoch") "lsq.qnn" fresh_globals)
      = Return (m, 32) /\
    length (List.filter is_Identity (model_layers m)) = 0%nat.
Proof.
  destruct sample_model_layers as (m & Hm & _).
  exists m. split; [exact Hm |].
  pose proof (set_model_input_quantizers _ _ _ _ _ Hm) as H.
  destruct m as [n | n]; [| exact H].
  vm_compute in Hm. discriminate Hm.
Defined.

(** ** The forward pass against the registered layers *)

Lemma applied_block (b : ConvBNReLU.t) (x : tensor) :
  applied (ConvBNReLU.forward b x) = applied x ++ block_layers b /\
  additions (ConvBNReLU.forward b x) = additions x.
Proof.
  unfold ConvBNReLU.forward, block_layers.
  destruct (ConvBNReLU.quant_act b); simpl; by rewrite <- ?app_assoc.
Qed.

Lemma applied_sequential (ms : list submodule) (x : tensor) :
  applied (Sequential.forward ms x) = applied x ++ flat_map submodule_layers ms /\
  additions (Sequential.forward ms x) = additions x.
Proof.
  unfold Sequential.forward. revert x.
  induction ms as [| m ms IH]; intros x; cbn [fold_left flat_map];
    [by rewrite app_nil_r |].
  destruct (IH (Sequential.forward1 m x)) as [-> ->].
  destruct m as [b | l]; cbn [Sequential.forward1 submodule_layers].
  - destruct (applied_block b x) as [-> ->]. by rewrite <- app_assoc.
  - cbn [applied additions]. by rewrite <- app_assoc.
Qed.

Lemma applied_feature (f : feature) (x : tensor) :
  applied (forward_feature f x) = applied x ++ feature_layers f /\
  additions (forward_feature f x)
  = (additions x + skip_count [f])%nat.
Proof.
  destruct f as [b | r]; cbn [forward_feature feature_layers].
  - destruct (applied_block b x) as [-> ->]. split; [done |].
    unfold skip_count. simpl. lia.
  - unfold InvertedResidual.forward, skip_count, residual_layers.
    cbn [residual_summary flat_map app List.filter snd].
    destruct (applied_sequential (InvertedResidual.conv r) x) as [Ha Hn].
    destruct (InvertedResidual.use_res_connect r);
      cbn [applied additions List.filter snd length];
      rewrite Ha, Hn; split; (done || lia).
Qed.

Lemma applied_features (fs : list feature) (x : tensor) :
  applied (fold_left (fun x m => forward_feature m x) fs x)
    = applied x ++ flat_map feature_layers fs /\
  additions (fold_left (fun x m => forward_feature m x) fs x)
    = (additions x + skip_count fs)%nat.
Proof.
  revert x. induction fs as [| f fs IH]; intros x; cbn [fold_left flat_map].
  - rewrite app_nil_r. unfold skip_count. simpl. split; [done | lia].
  - destruct (IH (forward_feature f x)) as [-> ->].
    destruct (applied_feature f x) as [-> ->].
    rewrite <- app_assoc. split; [done |].
    unfold skip_count, residual_summary. cbn [flat_map].
    rewrite !app_nil_r, List.filter_app, length_app. lia.
Qed.

Lemma applied_classifier (ls : list layer) (x : tensor) :
  applied (fold_left (fun x m => call m x) ls x) = applied x ++ ls /\
  additions (fold_left (fun x m => call m x) ls x) = additions x.
Proof.
  revert x. induction ls as [| l ls IH]; intros x; simpl;
    [by rewrite app_nil_r |].
  destruct (IH (call l x)) as [-> ->]. simpl. by rewrite <- app_assoc.
Qed.

(** X10. The forward pass of either network class sends its input
    through exactly the layers of the model, each once, in the order in
    which the constructor registered them (the order the initialisation
    loop visits), and adds a skip input exactly once per block built with
    a skip connection; this holds for every model of these classes. *)
Theorem forward_follows_layers (m : model) :
  applied (model_forward m input) = model_layers m /\
  additions (model_forward m input) = skip_count (model_features m).
Proof.
  unfold model_layers.
  destruct m as [n | n]; cbn [model_forward model_features model_classifier];
    [unfold MobileNetV2.forward | unfold MobileNetV2_CIFAR.forward]; cbv zeta.
  - destruct (applied_classifier (MobileNetV2.classifier n)
                (mean [2; 3]
                   (fold_left (fun x m => forward_feature m x)
                      (MobileNetV2.features n) input))) as [-> ->].
    cbn [applied additions].
    by destruct (applied_features (MobileNetV2.features n) input) as [-> ->].
  - destruct (applied_classifier (MobileNetV2_CIFAR.classifier n)
                (mean [2; 3]
                   (fold_left (fun x m => forward_feature m x)
                      (MobileNetV2_CIFAR.features n) input))) as [-> ->].
    cbn [applied additions].
    by destruct (applied_features (MobileNetV2_CIFAR.features n) input) as [-> ->].
Qed.

(** ** Which width multipliers give a model *)

Lemma conv_positive_initialised (l : layer) : initialised l -> conv_positive l.
Proof. destruct l; simpl; tauto. Qed.

Lemma conv_positive_strip (l : list layer) :
  Forall conv_positive l -> Forall conv_positive (map strip_layer l).
Proof.
  rewrite List.Forall_map. apply List.Forall_impl. intros a. by destruct a.
Qed.

Lemma block_positive (g : globals) (i o k s gr : Z) (bw : value) (qi : bool)
    (b : ConvBNReLU.t) :
  ConvBNReLU.init g i o k s gr bw qi = Return b ->
  Forall conv_positive (block_layers b) -> 0 < k * k * o.
Proof.
  intros H Hpos. apply ConvBNReLU_init_inv in H as (Hc & _).
  apply conv2d_inv in Hc as (_ & _ & Ho & Hk & _).
  assert (Hin : In (Conv (ConvBNReLU.conv b)) (block_layers b)).
  { unfold block_layers. apply in_or_app. right. by left. }
  rewrite List.Forall_forall in Hpos. specialize (Hpos _ Hin).
  unfold conv_positive, fan in Hpos. by rewrite Hk, Ho in Hpos.
Qed.

Lemma residual_positive (g : globals) (inp oup s t : Z) (qi : bool)
    (r : InvertedResidual.t) :
  call_block g (inp, oup, s, t, qi) = Return r ->
  Forall conv_positive (residual_layers r) -> 0 < oup.
Proof.
  unfold call_block. intros H Hpos.
  apply InvertedResidual_init_struct in H
    as (pws & dw & pwl & Hconv & _ & _ & Hpwl).
  apply conv2d_inv in Hpwl as (_ & _ & Ho & Hk & _).
  assert (Hin : In (Conv pwl) (residual_layers r)).
  { unfold residual_layers. rewrite Hconv, flat_map_app. apply in_or_app. right.
    cbn [flat_map submodule_layers]. apply in_or_app. right. by left. }
  rewrite List.Forall_forall in Hpos. specialize (Hpos _ Hin).
  unfold conv_positive, fan in Hpos. rewrite Hk, Ho in Hpos. simpl in Hpos. lia.
Qed.

Lemma plan_positive (g : globals) (rows : list (Z * Z * nat * Z * bool))
    (outs : list Z) (inp : Z) (blocks : list InvertedResidual.t) :
  Forall (fun '(t, c, n, s, qi) => n <> 0%nat) rows ->
  length outs = length rows ->
  Forall2 (fun a r => call_block g a = Return r) (plan rows outs inp) blocks ->
  Forall conv_positive (flat_map feature_layers (map Residual blocks)) ->
  Forall (fun out => 0 < out) outs.
Proof.
  intros Hrows. revert outs inp blocks.
  induction Hrows as [| [[[[t c] n] s] qi] rows Hn _ IH];
    intros outs inp blocks Hlen H Hpos.
  { destruct outs; [constructor | discriminate]. }
  destruct outs as [| out outs]; [discriminate |].
  cbn [plan] in H. apply Forall2_app_inv_l in H as (b1 & b2 & H1 & H2 & ->).
  rewrite map_app, flat_map_app in Hpos. apply Forall_app in Hpos as [P1 P2].
  constructor.
  - destruct n as [| k]; [done |]. cbn [stage_plan] in H1.
    inversion H1 as [| a r l l' Ha Hl]; subst.
    cbn [map flat_map feature_layers] in P1. apply Forall_app in P1 as [P1 _].
    by eapply residual_positive.
  - eapply IH; [| exact H2 | exact P2]. simpl in Hlen. lia.
Qed.

(** X11. [set_model] returns a model only for a width multiplier that
    scales every channel count - the stem's 32, the seven counts of the
    block table, and the last 1280 - to a positive integer; for any other
    it raises, whatever the rest of the configuration.  (Together with a
    bound on the size of the counts, this is the condition under which C5
    shows that it does return.) *)
Theorem set_model_needs_positive_channels (cfg : config) (q : module_ref)
    (g : globals) (m : model) (size : Z) :
  snd (set_model cfg q g) = Return (m, size) ->
  width_ok (width_mult cfg) = true.
Proof.
  intros H.
  pose proof (set_model_initialised _ _ _ _ _ H) as Hinit.
  assert (Hpos : Forall conv_positive (map strip_layer (model_layers m))).
  { apply conv_positive_strip. revert Hinit. apply List.Forall_impl.
    apply conv_positive_initialised. }
  apply set_model_built in H as (classes & _ & Hb).
  destruct Hb as (c0 & outs & bw & first & blocks & last & fc & Hc0 & Hcl & Houts
                  & _ & Hfirst & Hblocks & Hlast & _ & Hfeats & Hcls).
  unfold model_layers in Hpos.
  rewrite map_app, <- feature_layers_strip, Hfeats in Hpos.
  apply Forall_app in Hpos as [Hpos _].
  cbn [flat_map feature_layers] in Hpos. apply Forall_app in Hpos as [Pfirst Hpos].
  rewrite flat_map_app in Hpos. apply Forall_app in Hpos as [Pblocks Plast].
  cbn [flat_map feature_layers] in Plast. rewrite app_nil_r in Plast.
  pose proof (block_positive _ _ _ _ _ _ _ _ _ Hfirst Pfirst) as H0.
  pose proof (block_positive _ _ _ _ _ _ _ _ _ Hlast Plast) as Hl.
  assert (Houts' : Forall (fun out => 0 < out) outs).
  { eapply plan_positive; [| | exact Hblocks | exact Pblocks].
    - destruct m; cbn [model_rows]; repeat constructor; discriminate.
    - symmetry. by eapply Forall2_length. }
  unfold width_ok, channel_counts. apply andb_true_iff. split.
  - assert (Hcol : map row_channel (model_rows m)
                   = [16; 24; 32; 64; 96; 160; 320]) by by destruct m.
    assert (Hok : forall rows os,
              Forall2 (fun '(t, c, n, s, qi) out =>
                         int_mul c (width_mult cfg) = Return out) rows os ->
              Forall (fun out => 0 < out) os ->
              forallb (scaled_ok (width_mult cfg)) (map row_channel rows) = true).
    { induction 1 as [| [[[[t c] n] s] qi] o rows os Hr _ IH];
        intros Hp; [done |].
      inversion Hp; subst. cbn [map forallb row_channel]. rewrite IH by assumption.
      unfold scaled_ok. rewrite Hr. rewrite andb_true_r. apply Z.ltb_lt. lia. }
    specialize (Hok _ _ Houts Houts'). rewrite Hcol in Hok.
    change (scaled_ok (width_mult cfg) 32
            && forallb (scaled_ok (width_mult cfg)) [16; 24; 32; 64; 96; 160; 320]
            = true).
    rewrite Hok, andb_true_r.
    unfold scaled_ok. rewrite Hc0. apply Z.ltb_lt. lia.
  - unfold scaled_ok. rewrite Hcl. apply Z.ltb_lt. lia.
Qed.

Lemma set_model_needs_positive_channels_witness :
  width_ok f1_0 = true.
Proof.
  destruct sample_model_layers as (m & Hm & _).
  exact (set_model_needs_positive_channels _ _ _ _ _ Hm).
Defined.

Lemma init_raises_early (w : float) (e : exn) (g : globals) (classes : Z) :
  int_mul 32 w = Raise e ->
  MobileNetV2.init g classes w = Raise e /\
  MobileNetV2_CIFAR.init g classes w = Raise e.
Proof.
  intros H. unfold MobileNetV2.init, MobileNetV2_CIFAR.init. by rewrite H.
Qed.

(** X12. For a recognized dataset name and a width multiplier that is
    not a number, [set_model] raises [ValueError]; for an infinite one it
    raises [OverflowError]: the first scaled channel count, [int(32 *
    width_mult)], cannot be converted, and no layer is built. *)
Theorem set_model_nonfinite_width (cfg : config) (q : module_ref) (g : globals) :
  dataset cfg ∈ recognized ->
  (width_mult cfg = SpecFloat.S754_nan ->
   snd (set_model cfg q g)
   = Raise (ValueError "cannot convert float NaN to integer")) /\
  (forall sign, width_mult cfg = SpecFloat.S754_infinity sign ->
   snd (set_model cfg q g)
   = Raise (OverflowError "cannot convert float infinity to integer")).
Proof.
  intros Hds.
  assert (Hgen : forall e, int_mul 32 (width_mult cfg) = Raise e ->
                           snd (set_model cfg q g) = Raise e).
  { intros e He. unfold set_model. cbn [snd g_qnn g_qcfg].
    unfold recognized in Hds. rewrite !elem_of_cons, elem_of_nil in Hds.
    destruct Hds as [E | [E | [E | []]]]; rewrite E.
    - change (str_in "cifar10" ["cifar10"; "cifar100"]) with true. cbv iota.
      change (int_of_str (drop_chars 5 "cifar10")) with (Return 10).
      cbn [mbind result_bind].
      by rewrite (proj2 (init_raises_early _ _ _ _ He)).
    - change (str_in "cifar100" ["cifar10"; "cifar100"]) with true. cbv iota.
      change (int_of_str (drop_chars 5 "cifar100")) with (Return 100).
      cbn [mbind result_bind].
      by rewrite (proj2 (init_raises_early _ _ _ _ He)).
    - change (str_in "imagenet" ["cifar10"; "cifar100"]) with false.
      change (str_in "imagenet" ["imagenet"]) with true. cbv iota.
      by rewrite (proj1 (init_raises_early _ _ _ _ He)). }
  split.
  - intros Hw. apply Hgen. by rewrite Hw.
  - intros sign Hw. apply Hgen. rewrite Hw. by destruct sign.
Qed.

Lemma set_model_nonfinite_width_witness :
  snd (set_model (sample_cfg "imagenet" SpecFloat.S754_nan "train" "epoch")
         "lsq.qnn" fresh_globals)
  = Raise (ValueError "cannot convert float NaN to integer").
Proof.
  apply (set_model_nonfinite_width
           (sample_cfg "imagenet" SpecFloat.S754_nan "train" "epoch")).
  - unfold recognized. simpl. rewrite !elem_of_cons. tauto.
  - reflexivity.
Defined.

(** ** [main]: dispatch on the run type *)


(** X14. In train mode [main] itself registers: at [before_train] the
    checkpoint loader, [load_resume] if [cfg.resume] is set and [load_init]
    if not - and none at all when [cfg.load] is None, even with
    [cfg.resume] set; at [after_epoch] the scheduler step (when
    [step_location] is "epoch") before [save_train], and
    [summarize_reports] last; at [after_batch] only the scheduler step
    (for any other [step_location]); at [before_epoch] nothing. *)
Theorem main_train_hooks (cfg : config) (q : quantizer) :
  run_type cfg = "train" ->
  registered (main cfg q) "before_train"
  = (match load cfg with
     | None => []
     | Some _ => if resume cfg then [load_resume] else [load_init]
     end) /\
  registered (main cfg q) "before_epoch" = [] /\
  registered (main cfg q) "after_batch"
  = (if String.eqb (step_location cfg) "epoch" then [] else [step_lr_batch]) /\
  registered (main cfg q) "after_epoch"
  = (if String.eqb (step_location cfg) "epoch" then [step_lr_epoch] else [])
    ++ [save_train; summarize_reports].
Proof.
  intros Hrt. unfold main. rewrite Hrt.
  change (String.eqb "train" "train") with true. cbv iota.
  destruct (load cfg) as [path |]; [destruct (resume cfg) |];
    destruct (String.eqb (step_location cfg) "epoch");
    destruct (add_hooks q); by repeat split.
Qed.

Lemma main_train_hooks_witness :
  registered
    (main (Config "mobilenetv2" 0 f1_0 "cifar10" VNone VNone VNone VNone VNone
             "lsq" "train" None true "epoch") sample_quantizer)
    "before_train" = [].
Proof.
  apply (main_train_hooks
           (Config "mobilenetv2" 0 f1_0 "cifar10" VNone VNone VNone VNone VNone
              "lsq" "train" None true "epoch") sample_quantizer).
  reflexivity.
Defined.

(** X15. Outside train mode [main] looks at nothing but the run type:
    [load], [resume], [step_location] and the quantizer make no
    difference.  It then registers no scheduler step, no [save_train] and
    no [load_init] or [load_resume] at any location, and in validate, test
    and analyze mode its first registration is [load_valid] at
    [before_epoch] - also when [cfg.load] is None. *)
Theorem main_evaluation_modes (cfg : config) (q : quantizer) :
  run_type cfg <> "train" ->
  (forall cfg' q', run_type cfg' = run_type cfg -> main cfg' q' = main cfg q) /\
  (forall loc, List.filter is_training_hook (registered (main cfg q) loc) = []) /\
  (run_type cfg ∈ run_modes ->
   exists rest, main cfg q = RegisterHooks "before_epoch" [load_valid] :: rest).
Proof.
  intros Hrt. apply String.eqb_neq in Hrt. split; [| split].
  - intros cfg' q' E. unfold main. by rewrite E, Hrt.
  - intros loc. unfold main. rewrite Hrt.
    repeat match goal with
           | |- context [String.eqb (run_type cfg) ?s] =>
               destruct (String.eqb (run_type cfg) s)
           end; unfold registered; cbn [flat_map app];
      repeat match goal with
             | |- context [String.eqb ?a loc] => destruct (String.eqb a loc)
             end; reflexivity.
  - unfold run_modes. rewrite !elem_of_cons, elem_of_nil. unfold main.
    rewrite Hrt. intros [E | [E | [E | [E | []]]]].
    + apply String.eqb_neq in Hrt. by destruct Hrt.
    + rewrite E. by eexists.
    + rewrite E. by eexists.
    + rewrite E. by eexists.
Qed.

Lemma main_evaluation_modes_witness :
  exists rest,
    main (sample_cfg "cifar10" f1_0 "test" "epoch") sample_quantizer
    = RegisterHooks "before_epoch" [load_valid] :: rest.
Proof.
  apply (main_evaluation_modes (sample_cfg "cifar10" f1_0 "test" "epoch")
           sample_quantizer).
  - discriminate.
  - unfold run_modes. simpl. rewrite !elem_of_cons. tauto.
Defined.

(** ** Architecture names, once more *)

(** X16. The name [set_arch_name] returns always begins with [cfg.arch].
    It is [cfg.arch] itself for every architecture other than resnet,
    preactresnet and mobilenetv2; for the two resnet families it is the
    architecture, a dash and the layer count, whatever the width
    multiplier. *)
Theorem set_arch_name_prefix (format_float : float -> string) (cfg : config) :
  (exists suffix, set_arch_name format_float cfg = arch cfg +:+ suffix) /\
  (arch cfg ∉ ["resnet"; "preactresnet"; "mobilenetv2"] ->
   set_arch_name format_float cfg = arch cfg) /\
  (arch cfg ∈ ["resnet"; "preactresnet"] ->
   set_arch_name format_float cfg = arch cfg +:+ "-" +:+ str_of_Z (layers cfg)).
Proof.
  assert (Hnil : forall s : string, s +:+ "" = s).
  { intros s. induction s as [| c s IH]; [done |].
    change (String c (s +:+ "") = String c s). by rewrite IH. }
  unfold set_arch_name. split; [| split].
  - destruct (str_in (arch cfg) ["resnet"; "preactresnet"]); [by eexists |].
    destruct (str_in (arch cfg) ["mobilenetv2"]); [| exists ""; by rewrite Hnil].
    destruct (negb (feqb (width_mult cfg) f1_0)); [by eexists |].
    exists "". by rewrite Hnil.
  - intros Hn.
    assert (H1 : str_in (arch cfg) ["resnet"; "preactresnet"] = false).
    { apply str_in_not_elem_of. intros Hin. apply Hn. revert Hin.
      rewrite !elem_of_cons. tauto. }
    assert (H2 : str_in (arch cfg) ["mobilenetv2"] = false).
    { apply str_in_not_elem_of. intros Hin. apply Hn. revert Hin.
      rewrite !elem_of_cons. tauto. }
    by rewrite H1, H2.
  - intros Hin. apply str_in_elem_of in Hin. by rewrite Hin.
Qed.

Lemma set_arch_name_prefix_witness :
  set_arch_name format_exact
    (Config "vgg" 16 f0_5 "cifar10" VNone VNone VNone VNone VNone
            "lsq" "train" None false "epoch") = "vgg".
Proof.
  apply (set_arch_name_prefix format_exact
           (Config "vgg" 16 f0_5 "cifar10" VNone VNone VNone VNone VNone
                   "lsq" "train" None false "epoch")).
  simpl. rewrite !elem_of_cons, elem_of_nil.
  intros [E | [E | [E | []]]]; discriminate E.
Defined.

